(** * Coordinate-Exercise-for-Scratch: the mapper, the controller and the
      progress loader, embedded and verified.

    The TypeScript sources are [types.ts], [constants.ts],
    [components/CoordinateCanvas.tsx] and [App.tsx].  Embedded are the
    configuration table, the coordinate mapper and the pointer handlers of
    the canvas, and the controller of the app: its state, its handlers, its
    effects and its deferred callbacks, the effect that persists the
    progress, and the drawing effect of the canvas as the list of calls it
    makes on the 2D context.  The markup and its style classes are not.

    Number model.  A JavaScript [number] is an IEEE-754 double.  Here it is
    an exact rational ([Q]): every arithmetic operation of the source is
    carried out without rounding error, and the non-finite values
    ([Infinity], [NaN]) are not numbers of the model.  The one way the
    sources can produce them from finite inputs is a division by zero, which
    is why division is the partial operation [div] below. *)

From Stdlib Require Import ZArith QArith Qround Qabs Lia Bool List.
From Stdlib Require Import Ascii String.
From Stdlib Require Import DecimalFacts DecimalPos.
From Stdlib Require Import Reals Qreals Lra Lqa.
Import ListNotations.

Local Open Scope Q_scope.
Set Warnings "-register-all".

(* ------------------------------------------------------------------ *)
(** ** JavaScript numerics *)

Module JS.

(** Results of computations that may leave the finite numbers. *)
Definition fallible (A : Type) : Type := option A.

Definition ret {A} (a : A) : fallible A := Some a.

Definition bind {A B} (m : fallible A) (k : A -> fallible B) : fallible B :=
  match m with
  | Some a => k a
  | None => None
  end.

(** [a / b]; [None] stands for the non-finite quotient JavaScript yields
    when [b] is zero. *)
Definition div (a b : Q) : fallible Q :=
  if Qeq_bool b 0 then None else Some (a / b).

(** [Math.floor]. *)
Definition Math_floor (x : Q) : Q := inject_Z (Qfloor x).

(** [Math.round]: the nearest integer, ties towards positive infinity. *)
Definition Math_round (x : Q) : Q := inject_Z (Qfloor (x + (1 # 2))).

(** [Math.sqrt(a) <= t], decided without leaving the rationals. *)
Definition sqrt_leb (a t : Q) : bool :=
  Qle_bool 0 t && Qle_bool a (t * t).

(** [a || b] on numbers: [a] unless it is falsy, that is zero. *)
Definition or_else (a b : Q) : Q :=
  if Qeq_bool a 0 then b else a.

(** [a < b] and [a <= b] as JavaScript booleans. *)
Definition ltb (a b : Q) : bool := negb (Qle_bool b a).
Definition leb (a b : Q) : bool := Qle_bool a b.

(** [Math.min]. *)
Definition Math_min (a b : Q) : Q := if Qle_bool a b then a else b.

(** The integer part, rounding towards zero. *)
Definition trunc (q : Q) : Z :=
  if Qle_bool 0 q then Qfloor q else Qceiling q.

(** [a % b === 0].  The remainder [a - b * trunc (a / b)] has the sign of
    [a]; with [b] zero it is [NaN], which equals nothing. *)
Definition rem_is_zero (a b : Q) : bool :=
  match div a b with
  | Some q => Qeq_bool (a - b * inject_Z (trunc q)) 0
  | None => false
  end.

End JS.

Notation "x <- m ;; k" := (JS.bind m (fun x => k))
  (at level 61, m at next level, right associativity).

(* ------------------------------------------------------------------ *)
(** ** types.ts *)

Record Point : Type := mkPoint { x : Q; y : Q }.

Inductive DifficultyLevel : Type := Intro | Advanced | Challenge | Hell.

(** The string value of each enum member. *)
Definition level_id (m : DifficultyLevel) : string :=
  match m with
  | Intro => "INTRO"
  | Advanced => "ADVANCED"
  | Challenge => "CHALLENGE"
  | Hell => "HELL"
  end.

Definition level_eqb (a b : DifficultyLevel) : bool :=
  match a, b with
  | Intro, Intro | Advanced, Advanced
  | Challenge, Challenge | Hell, Hell => true
  | _, _ => false
  end.

Inductive OriginPos : Type := center | bottom_left.

Record GameConfig : Type := mkConfig {
  id : DifficultyLevel;
  name : string;
  description : string;
  xRange : Q * Q;
  yRange : Q * Q;
  gridStep : Q;
  majorGridStep : option Q;
  labelStep : Q;
  targetStep : Q;
  tolerance : Q;
  themeColor : string;
  originPos : OriginPos
}.

(* ------------------------------------------------------------------ *)
(** ** constants.ts *)

Definition UNLOCK_THRESHOLD : Q := 20.

Definition GAME_MODES (m : DifficultyLevel) : GameConfig :=
  match m with
  | Intro =>
      {| id := Intro; name := "🟢 入门模式"; description := "数格子 (第一象限)";
         xRange := (0, 10); yRange := (0, 10);
         gridStep := 1; majorGridStep := None; labelStep := 1;
         targetStep := 1; tolerance := 4 # 10;
         themeColor := "emerald"; originPos := bottom_left |}
  | Advanced =>
      {| id := Advanced; name := "🔵 进阶模式"; description := "认识负数 (四象限)";
         xRange := (-10, 10); yRange := (-10, 10);
         gridStep := 1; majorGridStep := None; labelStep := 2;
         targetStep := 1; tolerance := 4 # 10;
         themeColor := "blue"; originPos := center |}
  | Challenge =>
      {| id := Challenge; name := "🟠 挑战模式";
         description := "大跨度练习 (以10计数)";
         xRange := (-50, 50); yRange := (-50, 50);
         gridStep := 5; majorGridStep := Some 10; labelStep := 10;
         targetStep := 5; tolerance := 35 # 10;
         themeColor := "orange"; originPos := center |}
  | Hell =>
      {| id := Hell; name := "🔴 地狱模式"; description := "Scratch 标准舞台";
         xRange := (-240, 240); yRange := (-180, 180);
         gridStep := 20; majorGridStep := Some 100; labelStep := 100;
         targetStep := 10; tolerance := 15;
         themeColor := "rose"; originPos := center |}
  end.

(* ------------------------------------------------------------------ *)
(** ** components/CoordinateCanvas.tsx: the coordinate mapper *)

Module Canvas.

Record Dimensions : Type := mkDimensions { width : Q; height : Q }.

(** [useState({ width: 600, height: 450 })]. *)
Definition initial_dimensions : Dimensions :=
  {| width := 600; height := 450 |}.

(** [updateSize], the resize handler.  [container] is
    [containerRef.current]: absent, or an element whose [clientWidth] is
    the given integer.  The two possible divisors [1] and [4 / 3] are
    constants, so the quotient is always finite. *)
Definition updateSize (config : GameConfig) (container : option Z)
    (dimensions : Dimensions) : Dimensions :=
  match container with
  | Some clientWidth =>
      let aspectRatio := if level_eqb (id config) Intro then 1 else 4 / 3 in
      {| width := inject_Z clientWidth;
         height := inject_Z clientWidth / aspectRatio |}
  | None => dimensions
  end.

Definition padding : Q := 40.

(** The divisors of [toLogical]. *)
Definition drawW (dimensions : Dimensions) : Q :=
  width dimensions - padding * 2.
Definition drawH (dimensions : Dimensions) : Q :=
  height dimensions - padding * 2.

Definition xSpan (config : GameConfig) : Q :=
  snd (xRange config) - fst (xRange config).
Definition ySpan (config : GameConfig) : Q :=
  snd (yRange config) - fst (yRange config).

(** Logical coordinate -> canvas pixel. *)
Definition toPixel (config : GameConfig) (dimensions : Dimensions)
    (p : Point) : JS.fallible Point :=
  fx <- JS.div (x p - fst (xRange config)) (xSpan config) ;;
  fy <- JS.div (y p - fst (yRange config)) (ySpan config) ;;
  JS.ret {| x := padding + fx * drawW dimensions;
            y := height dimensions - padding - fy * drawH dimensions |}.

(** The locals [lx] and [ly] of [toLogical]. *)
Definition toLogical_lx (config : GameConfig) (dimensions : Dimensions)
    (p : Point) : JS.fallible Q :=
  q <- JS.div (x p - padding) (drawW dimensions) ;;
  JS.ret (q * xSpan config + fst (xRange config)).

Definition toLogical_ly (config : GameConfig) (dimensions : Dimensions)
    (p : Point) : JS.fallible Q :=
  q <- JS.div (height dimensions - padding - y p) (drawH dimensions) ;;
  JS.ret (q * ySpan config + fst (yRange config)).

(** Canvas pixel -> logical coordinate. *)
Definition toLogical (config : GameConfig) (dimensions : Dimensions)
    (p : Point) : JS.fallible Point :=
  lx <- toLogical_lx config dimensions p ;;
  ly <- toLogical_ly config dimensions p ;;
  JS.ret {| x := JS.Math_round lx; y := JS.Math_round ly |}.

(** What the handlers read from the browser: the canvas's bounding
    rectangle and the pointer position. *)
Record DOMRect : Type := mkRect { rect_left : Q; rect_top : Q }.
Record MouseEvent : Type := mkMouse { clientX : Q; clientY : Q }.

(** [handleClick].  The outer option is [None] when [canvasRef.current] is
    absent and [onClick] is not called; otherwise it holds the argument
    [onClick] is called with. *)
Definition handleClick (config : GameConfig) (dimensions : Dimensions)
    (canvas : option DOMRect) (e : MouseEvent)
    : option (JS.fallible Point) :=
  match canvas with
  | None => None
  | Some rect =>
      let px := clientX e - rect_left rect in
      let py := clientY e - rect_top rect in
      let logical := toLogical config dimensions {| x := px; y := py |} in
      Some logical
  end.

(** [handleMouseMove] has the same shape and calls [onHover]. *)
Definition handleMouseMove (config : GameConfig) (dimensions : Dimensions)
    (canvas : option DOMRect) (e : MouseEvent)
    : option (JS.fallible Point) :=
  match canvas with
  | None => None
  | Some rect =>
      let px := clientX e - rect_left rect in
      let py := clientY e - rect_top rect in
      let logical := toLogical config dimensions {| x := px; y := py |} in
      Some logical
  end.

End Canvas.

(* ------------------------------------------------------------------ *)
(** ** The platform's [JSON.parse]

    [App.tsx] hands the stored text to [JSON.parse], which is part of the
    JavaScript platform and not of the repository.  It is embedded here
    after the JSON grammar (ECMA-404): a lexer that reads the text one
    character at a time, and a parser that reads the tokens one at a time
    with a stack of open containers.  Both recurse on their input only, so
    [parse] is total and answers [None] exactly where [JSON.parse] throws a
    [SyntaxError].  Texts are byte strings; a [\uXXXX] escape is stored as
    the UTF-8 bytes of its code unit. *)

Module JSON.

Inductive value : Type :=
| JNull
| JBool (b : bool)
| JNumber (q : Q)
| JString (s : string)
| JArray (elements : list value)
| JObject (members : list (string * value)).

Inductive token : Type :=
| LBrace | RBrace | LBracket | RBracket | Colon | Comma
| TNull | TTrue | TFalse
| TNumber (q : Q)
| TString (s : string).

(** *** Characters *)

Definition code (c : ascii) : N := N_of_ascii c.

Definition between (lo hi : N) (c : ascii) : bool :=
  (lo <=? code c)%N && (code c <=? hi)%N.

Definition is_ws (c : ascii) : bool :=
  match code c with
  | 32%N | 9%N | 10%N | 13%N => true
  | _ => false
  end.

Definition is_digit (c : ascii) : bool := between 48 57 c.

Definition is_word_char (c : ascii) : bool :=
  is_digit c || between 97 122 c || between 65 90 c
  || match code c with 43%N | 45%N | 46%N => true | _ => false end.

Definition hex_value (c : ascii) : option N :=
  if is_digit c then Some (code c - 48)%N
  else if between 97 102 c then Some (code c - 87)%N
  else if between 65 70 c then Some (code c - 55)%N
  else None.

(** *** Numbers *)

Fixpoint span_digits (cs : list ascii) : list ascii * list ascii :=
  match cs with
  | c :: r =>
      if is_digit c then let (ds, rest) := span_digits r in (c :: ds, rest)
      else ([], cs)
  | [] => ([], [])
  end.

Definition digits_value (ds : list ascii) : Z :=
  fold_left (fun acc c => (acc * 10 + Z.of_N (code c - 48))%Z) ds 0%Z.

(** [m * 10 ^ e]. *)
Definition scale (m e : Z) : Q :=
  match e with
  | Zneg p => m # (Pos.pow 10 p)
  | _ => inject_Z (m * 10 ^ e)
  end.

(** The optional fraction: its digits and what follows them. *)
Definition fraction (cs : list ascii) : option (list ascii * list ascii) :=
  match cs with
  | "."%char :: r =>
      match span_digits r with
      | ([], _) => None
      | (ds, rest) => Some (ds, rest)
      end
  | _ => Some ([], cs)
  end.

(** The optional exponent, which must end the number. *)
Definition exponent (cs : list ascii) : option Z :=
  match cs with
  | [] => Some 0%Z
  | e :: r =>
      if (code e =? 101)%N || (code e =? 69)%N then
        let (negative, r1) :=
          match r with
          | "-"%char :: r' => (true, r')
          | "+"%char :: r' => (false, r')
          | _ => (false, r)
          end in
        match span_digits r1 with
        | ([], _) => None
        | (ds, []) =>
            Some (if negative then (- digits_value ds)%Z else digits_value ds)
        | (_, _ :: _) => None
        end
      else None
  end.

(** A number: an optional minus sign; an integer part, either a lone
    zero or digits not starting with zero; optionally a point and one or
    more digits; optionally an exponent. *)
Definition number (cs : list ascii) : option Q :=
  let (negative, cs1) :=
    match cs with
    | "-"%char :: r => (true, r)
    | _ => (false, cs)
    end in
  let (ip, cs2) := span_digits cs1 in
  match ip with
  | [] => None
  | "0"%char :: _ :: _ => None
  | _ =>
      match fraction cs2 with
      | None => None
      | Some (fp, cs3) =>
          match exponent cs3 with
          | None => None
          | Some e =>
              let m := digits_value (ip ++ fp) in
              let q := scale m (e - Z.of_nat (List.length fp)) in
              Some (if negative then - q else q)
          end
      end
  end.

(** A maximal run of word characters is one token: a literal name or a
    number.  Two such tokens are never adjacent in a JSON text. *)
Definition word_token (cs : list ascii) : option token :=
  let s := string_of_list_ascii cs in
  if String.eqb s "null" then Some TNull
  else if String.eqb s "true" then Some TTrue
  else if String.eqb s "false" then Some TFalse
  else match number cs with
       | Some q => Some (TNumber q)
       | None => None
       end.

(** *** Strings *)

Definition byte (n : N) : ascii := ascii_of_N n.

(** The UTF-8 bytes of a 16-bit code unit. *)
Definition utf8 (u : N) : list ascii :=
  if (u <? 128)%N then [byte u]
  else if (u <? 2048)%N then
    [byte (192 + u / 64); byte (128 + u mod 64)]%N
  else
    [byte (224 + u / 4096); byte (128 + (u / 64) mod 64);
     byte (128 + u mod 64)]%N.

(** *** The lexer *)

Inductive lex_mode : Type :=
| Idle
| InWord (acc : list ascii)
| InString (acc : list ascii)
| InEscape (acc : list ascii)
| InUnicode (acc : list ascii) (seen : nat) (u : N).

(** Accumulators hold characters, and token lists tokens, newest first. *)
Definition lex_state : Type := lex_mode * list token.

Definition idle_step (toks : list token) (c : ascii) : option lex_state :=
  if is_ws c then Some (Idle, toks)
  else if is_word_char c then Some (InWord [c], toks)
  else match code c with
       | 123%N => Some (Idle, LBrace :: toks)
       | 125%N => Some (Idle, RBrace :: toks)
       | 91%N => Some (Idle, LBracket :: toks)
       | 93%N => Some (Idle, RBracket :: toks)
       | 58%N => Some (Idle, Colon :: toks)
       | 44%N => Some (Idle, Comma :: toks)
       | 34%N => Some (InString [], toks)
       | _ => None
       end.

Definition escape_step (acc : list ascii) (toks : list token) (c : ascii)
    : option lex_state :=
  match code c with
  | 34%N | 92%N | 47%N => Some (InString (c :: acc), toks)
  | 98%N => Some (InString (byte 8 :: acc), toks)
  | 102%N => Some (InString (byte 12 :: acc), toks)
  | 110%N => Some (InString (byte 10 :: acc), toks)
  | 114%N => Some (InString (byte 13 :: acc), toks)
  | 116%N => Some (InString (byte 9 :: acc), toks)
  | 117%N => Some (InUnicode acc 0 0%N, toks)
  | _ => None
  end.

Definition lex_step (st : lex_state) (c : ascii) : option lex_state :=
  let (m, toks) := st in
  match m with
  | Idle => idle_step toks c
  | InWord acc =>
      if is_word_char c then Some (InWord (c :: acc), toks)
      else match word_token (rev acc) with
           | Some t => idle_step (t :: toks) c
           | None => None
           end
  | InString acc =>
      match code c with
      | 34%N =>
          Some (Idle, TString (string_of_list_ascii (rev acc)) :: toks)
      | 92%N => Some (InEscape acc, toks)
      | n => if (n <? 32)%N then None else Some (InString (c :: acc), toks)
      end
  | InEscape acc => escape_step acc toks c
  | InUnicode acc seen u =>
      match hex_value c with
      | None => None
      | Some h =>
          let u' := (u * 16 + h)%N in
          if Nat.eqb seen 3
          then Some (InString (rev (utf8 u') ++ acc), toks)
          else Some (InUnicode acc (S seen) u', toks)
      end
  end.

Fixpoint lex_from (st : lex_state) (cs : list ascii) : option (list token) :=
  match cs with
  | c :: r =>
      match lex_step st c with
      | Some st' => lex_from st' r
      | None => None
      end
  | [] =>
      match st with
      | (Idle, toks) => Some (rev toks)
      | (InWord acc, toks) =>
          match word_token (rev acc) with
          | Some t => Some (rev (t :: toks))
          | None => None
          end
      | _ => None
      end
  end.

Definition lex (s : string) : option (list token) :=
  lex_from (Idle, []) (list_ascii_of_string s).

(** *** The parser *)

(** An open container: the elements or members read so far, newest
    first, and for an object the key whose value is awaited. *)
Inductive frame : Type :=
| InArray (acc : list value)
| InObject (acc : list (string * value)) (key : option string).

Inductive expect : Type :=
| Value
| ValueOrEnd
| KeyOrEnd
| Key
| ColonNext
| CommaOrEnd
| Finished (v : value).

Definition parse_state : Type := expect * list frame.

(** A complete value goes to the innermost open container. *)
Definition push (v : value) (stack : list frame) : option parse_state :=
  match stack with
  | [] => Some (Finished v, [])
  | InArray acc :: rest => Some (CommaOrEnd, InArray (v :: acc) :: rest)
  | InObject acc (Some k) :: rest =>
      Some (CommaOrEnd, InObject ((k, v) :: acc) None :: rest)
  | InObject _ None :: _ => None
  end.

Definition close_array (stack : list frame) : option parse_state :=
  match stack with
  | InArray acc :: rest => push (JArray (rev acc)) rest
  | _ => None
  end.

Definition close_object (stack : list frame) : option parse_state :=
  match stack with
  | InObject acc None :: rest => push (JObject (rev acc)) rest
  | _ => None
  end.

Definition begin_value (t : token) (stack : list frame)
    : option parse_state :=
  match t with
  | TNull => push JNull stack
  | TTrue => push (JBool true) stack
  | TFalse => push (JBool false) stack
  | TNumber q => push (JNumber q) stack
  | TString s => push (JString s) stack
  | LBracket => Some (ValueOrEnd, InArray [] :: stack)
  | LBrace => Some (KeyOrEnd, InObject [] None :: stack)
  | _ => None
  end.

Definition read_key (t : token) (stack : list frame) : option parse_state :=
  match t, stack with
  | TString k, InObject acc None :: rest =>
      Some (ColonNext, InObject acc (Some k) :: rest)
  | _, _ => None
  end.

Definition parse_step (st : parse_state) (t : token) : option parse_state :=
  let (e, stack) := st in
  match e with
  | Value => begin_value t stack
  | ValueOrEnd =>
      match t with
      | RBracket => close_array stack
      | _ => begin_value t stack
      end
  | KeyOrEnd =>
      match t with
      | RBrace => close_object stack
      | _ => read_key t stack
      end
  | Key => read_key t stack
  | ColonNext =>
      match t with
      | Colon => Some (Value, stack)
      | _ => None
      end
  | CommaOrEnd =>
      match t, stack with
      | Comma, InArray _ :: _ => Some (Value, stack)
      | Comma, InObject _ None :: _ => Some (Key, stack)
      | RBracket, _ => close_array stack
      | RBrace, _ => close_object stack
      | _, _ => None
      end
  | Finished _ => None
  end.

Fixpoint parse_from (st : parse_state) (ts : list token) : option value :=
  match ts with
  | t :: r =>
      match parse_step st t with
      | Some st' => parse_from st' r
      | None => None
      end
  | [] =>
      match st with
      | (Finished v, []) => Some v
      | _ => None
      end
  end.

(** [JSON.parse(text)]; [None] is a thrown [SyntaxError]. *)
Definition parse (text : string) : option value :=
  match lex text with
  | Some ts => parse_from (Value, []) ts
  | None => None
  end.

(** [o[k]] on a parsed object: of members with the same key the last
    one is the property's value. *)
Fixpoint get (members : list (string * value)) (k : string) : option value :=
  match members with
  | [] => None
  | (k', v) :: r =>
      match get r k with
      | Some v' => Some v'
      | None => if String.eqb k' k then Some v else None
      end
  end.

End JSON.

(* ------------------------------------------------------------------ *)
(** ** App.tsx: the game state controller *)

Module App.

(** A template literal: string pieces and interpolated numbers, kept
    apart so that no number has to be printed. *)
Inductive Chunk : Type :=
| Lit (s : string)
| Num (q : Q).

Definition Text : Type := list Chunk.

(** [Record<DifficultyLevel, number>]. *)
Definition Progress : Type := DifficultyLevel -> Q.

(** [{ ...prev, [m]: v }]. *)
Definition spread_set (prev : Progress) (m : DifficultyLevel) (v : Q)
    : Progress :=
  fun k => if level_eqb k m then v else prev k.

(** *** Persistent progress state *)

Inductive Console : Type :=
| console_error (message : string).

(** The object literal the initializer falls back to. *)
Definition default_progress : JSON.value :=
  JSON.JObject
    [(level_id Intro, JSON.JNumber 0);
     (level_id Advanced, JSON.JNumber 0);
     (level_id Challenge, JSON.JNumber 0);
     (level_id Hell, JSON.JNumber 0)].

(** The initializer of the [progress] state.  [saved] is what
    [localStorage.getItem('coordinate_game_progress')] returns: [null] or
    a string, of which the empty one is falsy.  The result is the value
    the state starts with, and what was written to the console. *)
Definition progress_initializer (saved : option string)
    : JSON.value * list Console :=
  match saved with
  | Some text =>
      if String.eqb text "" then (default_progress, [])
      else
        match JSON.parse text with
        | Some v => (v, [])
        | None =>
            (default_progress, [console_error "Failed to parse progress"])
        end
  | None => (default_progress, [])
  end.

(** The declared type of the state is [Record<DifficultyLevel, number>].
    A runtime value has it when it is an object with a number under each
    of the four ids; [as_progress] reads it then. *)
Definition number_at (v : JSON.value) (m : DifficultyLevel) : option Q :=
  match v with
  | JSON.JObject members =>
      match JSON.get members (level_id m) with
      | Some (JSON.JNumber q) => Some q
      | _ => None
      end
  | _ => None
  end.

Definition as_progress (v : JSON.value) : option Progress :=
  match number_at v Intro, number_at v Advanced,
        number_at v Challenge, number_at v Hell with
  | Some a, Some b, Some c, Some d =>
      Some (fun m =>
              match m with
              | Intro => a | Advanced => b | Challenge => c | Hell => d
              end)
  | _, _, _, _ => None
  end.

(** A completion count: a non-negative integer. *)
Definition is_count (q : Q) : bool :=
  Qle_bool 0 q && Qeq_bool q (inject_Z (Qfloor q)).

(** [v] maps each difficulty id to a completion count. *)
Definition is_count_mapping (v : JSON.value) : bool :=
  forallb
    (fun m => match number_at v m with
              | Some q => is_count q
              | None => false
              end)
    [Intro; Advanced; Challenge; Hell].

(** [v] maps each difficulty id to zero. *)
Definition is_all_zero (v : JSON.value) : bool :=
  forallb
    (fun m => match number_at v m with
              | Some q => Qeq_bool q 0
              | None => false
              end)
    [Intro; Advanced; Challenge; Hell].

(** The default of the [progress] initializer, at its declared type. *)
Definition zero_progress : Progress := fun _ => 0.

Record LastResult : Type := mkResult {
  success : bool;
  clickPos : Point;
  timestamp : Z
}.

(** A callback handed to [setTimeout] and not yet run.  The callback of
    [handleCanvasClick] calls the [generateNewTarget] of the render it was
    created in, which reads that render's [config]. *)
Record Timer : Type := mkTimer {
  delay : Z;
  closure_config : GameConfig
}.

(** Calls that leave the component.  The effect that copies [progress] to
    [localStorage] after each change is not among them: what is persisted
    is the [progress] of the state. *)
Inductive Effect : Type :=
| confetti (particleCount spread : Z) (origin_y : Q).

Record State : Type := mkState {
  progress : Progress;
  mode : DifficultyLevel;
  target : Point;
  hoverPos : Point;
  score : Q;
  feedback : Text;
  lastResult : option LastResult;
  timers : list Timer;
  effects : list Effect
}.

(** The [useState] initial values, for a given loaded [progress]. *)
Definition initial (p : Progress) : State :=
  {| progress := p;
     mode := Intro;
     target := {| x := 3; y := 5 |};
     hoverPos := {| x := 0; y := 0 |};
     score := 0;
     feedback := [Lit "请点击画面寻找坐标！"];
     lastResult := None;
     timers := [];
     effects := [] |}.

(** The state setters; [setScore] and [setProgress] take an updater, as
    they are called in the source. *)
Definition setProgress (f : Progress -> Progress) (s : State) : State :=
  mkState (f (progress s)) (mode s) (target s) (hoverPos s) (score s)
          (feedback s) (lastResult s) (timers s) (effects s).
Definition setMode (m : DifficultyLevel) (s : State) : State :=
  mkState (progress s) m (target s) (hoverPos s) (score s)
          (feedback s) (lastResult s) (timers s) (effects s).
Definition setTarget (t : Point) (s : State) : State :=
  mkState (progress s) (mode s) t (hoverPos s) (score s)
          (feedback s) (lastResult s) (timers s) (effects s).
Definition setHoverPos (h : Point) (s : State) : State :=
  mkState (progress s) (mode s) (target s) h (score s)
          (feedback s) (lastResult s) (timers s) (effects s).
Definition setScore (f : Q -> Q) (s : State) : State :=
  mkState (progress s) (mode s) (target s) (hoverPos s) (f (score s))
          (feedback s) (lastResult s) (timers s) (effects s).
Definition setFeedback (t : Text) (s : State) : State :=
  mkState (progress s) (mode s) (target s) (hoverPos s) (score s)
          t (lastResult s) (timers s) (effects s).
Definition setLastResult (r : option LastResult) (s : State) : State :=
  mkState (progress s) (mode s) (target s) (hoverPos s) (score s)
          (feedback s) r (timers s) (effects s).

(** [setTimeout(callback, ms)] and a call out of the component. *)
Definition setTimeout (t : Timer) (s : State) : State :=
  mkState (progress s) (mode s) (target s) (hoverPos s) (score s)
          (feedback s) (lastResult s) (timers s ++ [t]) (effects s).
Definition perform (e : Effect) (s : State) : State :=
  mkState (progress s) (mode s) (target s) (hoverPos s) (score s)
          (feedback s) (lastResult s) (timers s) (effects s ++ [e]).
Definition dropTimer (s : State) : State :=
  mkState (progress s) (mode s) (target s) (hoverPos s) (score s)
          (feedback s) (lastResult s) (tl (timers s)) (effects s).

(** [const config = GAME_MODES[mode]]. *)
Definition config (s : State) : GameConfig := GAME_MODES (mode s).

(** *** Lock logic *)

Record LockStatus : Type := mkLock { isLocked : bool; reqText : Text }.

(** [getLockStatus].  Its last [return], for an [m] that is none of the
    four levels, has no counterpart: [m] ranges over the enum. *)
Definition getLockStatus (p : Progress) (m : DifficultyLevel) : LockStatus :=
  match m with
  | Intro => {| isLocked := false; reqText := [Lit ""] |}
  | Advanced =>
      let current := p Intro in
      {| isLocked := JS.ltb current UNLOCK_THRESHOLD;
         reqText := [Lit "需入门模式完成 "; Num current; Lit "/";
                     Num UNLOCK_THRESHOLD; Lit " 次"] |}
  | Challenge =>
      let current := p Advanced in
      {| isLocked := JS.ltb current UNLOCK_THRESHOLD;
         reqText := [Lit "需进阶模式完成 "; Num current; Lit "/";
                     Num UNLOCK_THRESHOLD; Lit " 次"] |}
  | Hell =>
      let current := p Challenge in
      {| isLocked := JS.ltb current UNLOCK_THRESHOLD;
         reqText := [Lit "需挑战模式完成 "; Num current; Lit "/";
                     Num UNLOCK_THRESHOLD; Lit " 次"] |}
  end.

(** *** Target generation *)

(** [getRandomCoord]; [random] is the value [Math.random()] returns. *)
Definition getRandomCoord (min max step random : Q) : JS.fallible Q :=
  q <- JS.div (max - min) step ;;
  let steps := JS.Math_floor q in
  let randomStep := JS.Math_floor (random * (steps + 1)) in
  JS.ret (min + randomStep * step).

(** The point [generateNewTarget] passes to [setTarget]; [rx] and [ry] are
    the two values it draws from [Math.random()]. *)
Definition newTarget (c : GameConfig) (rx ry : Q) : JS.fallible Point :=
  newX <- getRandomCoord (fst (xRange c)) (snd (xRange c)) (targetStep c) rx ;;
  newY <- getRandomCoord (fst (yRange c)) (snd (yRange c)) (targetStep c) ry ;;
  JS.ret {| x := newX; y := newY |}.

(** [generateNewTarget], as created in a render whose [config] is [c]. *)
Definition generateNewTarget (c : GameConfig) (rx ry : Q) (s : State)
    : JS.fallible State :=
  t <- newTarget c rx ry ;;
  JS.ret (setTarget t s).

(** *** Reset when mode changes *)

(** The body of the effect with dependencies [mode, generateNewTarget]. *)
Definition modeEffect (rx ry : Q) (s : State) : JS.fallible State :=
  s1 <- generateNewTarget (config s) rx ry s ;;
  JS.ret (setFeedback [Lit "新游戏开始！请找到目标位置。"]
           (setLastResult None
             (setScore (fun _ => 0) s1))).

(** *** Click evaluation *)

(** [handleCanvasClick]; [now] is the value of [Date.now()]. *)
Definition handleCanvasClick (clickPos : Point) (now : Z) (s : State)
    : State :=
  let dx := x clickPos - x (target s) in
  let dy := y clickPos - y (target s) in
  let isSuccess := JS.sqrt_leb (dx * dx + dy * dy) (tolerance (config s)) in
  if isSuccess then
    let s1 := setScore (fun v => v + 1) s in
    let s2 := setProgress
                (fun prev =>
                   spread_set prev (mode s) (JS.or_else (prev (mode s)) 0 + 1))
                s1 in
    let s3 := setFeedback [Lit "太棒了！找到啦！🎉"] s2 in
    let s4 := setLastResult
                (Some {| success := true; clickPos := target s;
                         timestamp := now |}) s3 in
    let s5 := perform (confetti 100 70 (6 # 10)) s4 in
    setTimeout {| delay := 1500; closure_config := config s |} s5
  else
    let s1 := setFeedback
                [Lit "哎呀偏了！你点到了 ("; Num (JS.Math_round (x clickPos));
                 Lit ", "; Num (JS.Math_round (y clickPos)); Lit ") 😅"] s in
    setLastResult
      (Some {| success := false; clickPos := clickPos;
               timestamp := now |}) s1.

(** The callback of the oldest pending timer runs.  With no pending timer
    nothing happens. *)
Definition fireTimeout (rx ry : Q) (s : State) : JS.fallible State :=
  match timers s with
  | [] => JS.ret s
  | t :: _ =>
      s1 <- generateNewTarget (closure_config t) rx ry (dropTimer s) ;;
      JS.ret (setFeedback [Lit "请寻找下一个坐标！"]
               (setLastResult None s1))
  end.

(** *** The mode buttons *)

(** The [onClick] of the button for [m]: [!isLocked && setMode(m)].  A
    state setter called with the current value causes no render, so the
    mode effect runs only when the mode changes. *)
Definition clickModeButton (m : DifficultyLevel) (rx ry : Q) (s : State)
    : JS.fallible State :=
  if isLocked (getLockStatus (progress s) m) then JS.ret s
  else if level_eqb m (mode s) then JS.ret s
  else modeEffect rx ry (setMode m s).

(** *** Events *)

Inductive Event : Type :=
| Mount (rx ry : Q)
| CanvasClick (clickPos : Point) (now : Z)
| CanvasHover (pos : Point)
| ModeButton (m : DifficultyLevel) (rx ry : Q)
| Timeout (rx ry : Q).

Definition step (s : State) (e : Event) : JS.fallible State :=
  match e with
  | Mount rx ry => modeEffect rx ry s
  | CanvasClick p now => JS.ret (handleCanvasClick p now s)
  | CanvasHover p => JS.ret (setHoverPos p s)
  | ModeButton m rx ry => clickModeButton m rx ry s
  | Timeout rx ry => fireTimeout rx ry s
  end.

Fixpoint run (s : State) (es : list Event) : JS.fallible State :=
  match es with
  | [] => JS.ret s
  | e :: es' => s' <- step s e ;; run s' es'
  end.

(** *** What the panels show *)

(** The mouse observer: [x: {Math.round(hoverPos.x)} | y:
    {Math.round(hoverPos.y)}]. *)
Definition mouseObserver (s : State) : Q * Q :=
  (JS.Math_round (x (hoverPos s)), JS.Math_round (y (hoverPos s))).

(** The width of the progress bar, in percent:
    [Math.min((progress[mode] / UNLOCK_THRESHOLD) * 100, 100)].  The divisor
    is the constant 20. *)
Definition progressBarWidth (s : State) : Q :=
  JS.Math_min (progress s (mode s) / UNLOCK_THRESHOLD * 100) 100.

(** *** An invariant of the pending callbacks *)

(** Pending callbacks were all created in a render of one of the tiers. *)
Definition timers_wf (s : State) : Prop :=
  Forall (fun t => exists m, closure_config t = GAME_MODES m) (timers s).

End App.

(* ------------------------------------------------------------------ *)
(** ** The canvas mounted in the app

    [App] renders [<CoordinateCanvas config={config} ...
    onClick={handleCanvasClick} />]: the canvas reads the app's current
    [config], keeps its own [dimensions], and hands the result of
    [toLogical] to the app's click handler. *)

Module Game.

Record World : Type := mkWorld {
  app : App.State;
  dimensions : Canvas.Dimensions
}.

(** A resize event, or the first layout: [updateSize] runs. *)
Definition resize (container : option Z) (w : World) : World :=
  {| app := app w;
     dimensions :=
       Canvas.updateSize (App.config (app w)) container (dimensions w) |}.

(** A pointer click on the canvas.  Nothing happens without a canvas
    element; a click whose logical point is not finite is outside the
    number model. *)
Definition pointerClick (canvas : option Canvas.DOMRect)
    (e : Canvas.MouseEvent) (now : Z) (w : World) : JS.fallible World :=
  match Canvas.handleClick (App.config (app w)) (dimensions w) canvas e with
  | None => JS.ret w
  | Some logical =>
      clickPos <- logical ;;
      JS.ret {| app := App.handleCanvasClick clickPos now (app w);
                dimensions := dimensions w |}
  end.

(** A pointer move over the canvas: [onHover={setHoverPos}]. *)
Definition pointerMove (canvas : option Canvas.DOMRect)
    (e : Canvas.MouseEvent) (w : World) : JS.fallible World :=
  match Canvas.handleMouseMove (App.config (app w)) (dimensions w) canvas e
  with
  | None => JS.ret w
  | Some logical =>
      pos <- logical ;;
      JS.ret {| app := App.setHoverPos pos (app w);
                dimensions := dimensions w |}
  end.

End Game.

(* ------------------------------------------------------------------ *)
(** ** App.tsx: persisting the progress

    The effect with dependency [progress] runs
    [localStorage.setItem('coordinate_game_progress',
    JSON.stringify(progress))].  [JSON.stringify] belongs to the platform;
    it is embedded here for the objects the app builds, whose keys are the
    four ids in the order of the initializer's object literal (a spread
    keeps that order). *)

Module Storage.

(** The double quote. *)
Definition quote : ascii := ascii_of_N 34.

Fixpoint uint_chars (d : Decimal.uint) : list ascii :=
  match d with
  | Decimal.Nil => []
  | Decimal.D0 r => "0"%char :: uint_chars r
  | Decimal.D1 r => "1"%char :: uint_chars r
  | Decimal.D2 r => "2"%char :: uint_chars r
  | Decimal.D3 r => "3"%char :: uint_chars r
  | Decimal.D4 r => "4"%char :: uint_chars r
  | Decimal.D5 r => "5"%char :: uint_chars r
  | Decimal.D6 r => "6"%char :: uint_chars r
  | Decimal.D7 r => "7"%char :: uint_chars r
  | Decimal.D8 r => "8"%char :: uint_chars r
  | Decimal.D9 r => "9"%char :: uint_chars r
  end.

(** The decimal digits of an integer, with a minus sign when negative. *)
Definition integer_chars (n : Z) : list ascii :=
  match n with
  | Z0 => ["0"%char]
  | Zpos p => uint_chars (Pos.to_uint p)
  | Zneg p => "-"%char :: uint_chars (Pos.to_uint p)
  end.

(** How a number is printed.  An integer of magnitude below 10^21 prints
    as its decimal digits; the printing of the other numbers (a decimal
    point, an exponent) is not embedded, and [None] stands for it. *)
Definition Number_toString (q : Q) : option (list ascii) :=
  let n := Qfloor q in
  if Qeq_bool q (inject_Z n) && (Z.abs n <? 10 ^ 21)%Z
  then Some (integer_chars n)
  else None.

(** One member, [key:value] with the key in quotes. *)
Definition member (p : App.Progress) (m : DifficultyLevel)
    : option (list ascii) :=
  match Number_toString (p m) with
  | Some digits =>
      Some (quote :: list_ascii_of_string (level_id m)
            ++ quote :: ":"%char :: digits)
  | None => None
  end.

(** [JSON.stringify(progress)]. *)
Definition JSON_stringify (p : App.Progress) : option string :=
  match member p Intro, member p Advanced,
        member p Challenge, member p Hell with
  | Some a, Some b, Some c, Some d =>
      Some (string_of_list_ascii
              ("{"%char :: a ++ ","%char :: b ++ ","%char :: c
               ++ ","%char :: d ++ ["}"%char]))
  | _, _, _, _ => None
  end.

(** The stored item after the persist effect has run, and what the
    initializer makes of it at the next start. *)
Definition persist (p : App.Progress) : option string := JSON_stringify p.

Definition reload (p : App.Progress) : option (JSON.value * list App.Console) :=
  match persist p with
  | Some text => Some (App.progress_initializer (Some text))
  | None => None
  end.

End Storage.

(* ------------------------------------------------------------------ *)
(** ** components/CoordinateCanvas.tsx: the drawing effect

    The effect repaints the whole surface.  A drawing is the list of the
    calls made on the canvas and on its 2D context, in order. *)

Module Renderer.

Import Canvas.

Inductive Cmd : Type :=
| set_canvas_width (w : Q)
| set_canvas_height (h : Q)
| scale (sx sy : Q)
| set_style_width (t : App.Text)
| set_style_height (t : App.Text)
| fillStyle (c : string)
| fillRect (px py w h : Q)
| textAlign (a : string)
| textBaseline (b : string)
| font (f : string)
| beginPath
| lineWidth (w : Q)
| strokeStyle (c : string)
| moveTo (px py : Q)
| lineTo (px py : Q)
| stroke
| fill
| fillText (t : App.Text) (px py : Q).

(** What [canvasRef.current] and [getContext('2d')] give. *)
Inductive Surface : Type :=
| NoCanvas
| NoContext
| Context2D.

(** [for (let v = lo; v <= hi; v += step) body].  The counter [fuel] bounds
    the number of rounds; [None] when it runs out.  A [continue] in the body
    is a body that contributes nothing. *)
Fixpoint for_loop (fuel : nat) (v hi step : Q)
    (body : Q -> JS.fallible (list Cmd)) : JS.fallible (list Cmd) :=
  if Qle_bool v hi then
    match fuel with
    | O => None
    | S fuel' =>
        cmds <- body v ;;
        rest <- for_loop fuel' (v + step) hi step body ;;
        JS.ret (cmds ++ rest)
    end
  else JS.ret [].

(** The rounds the loop makes when the step is positive. *)
Definition rounds (lo hi step : Q) : nat :=
  Z.to_nat (Qfloor ((hi - lo) / step) + 1).

(** [Math.round(v * 100) / 100]; the divisor is the constant 100. *)
Definition clean (v : Q) : Q := JS.Math_round (v * 100) / 100.

(** The three classes of grid line: width and colour. *)
Definition line_style (config : GameConfig) (cleanV : Q) : list Cmd :=
  let isAxis := Qeq_bool cleanV 0 in
  let isMajor :=
    match majorGridStep config with
    | Some major =>
        if Qeq_bool major 0 then false else JS.rem_is_zero cleanV major
    | None => false
    end in
  if isAxis then [lineWidth (25 # 10); strokeStyle "#334155"]
  else if isMajor then [lineWidth (15 # 10); strokeStyle "#94a3b8"]
  else [lineWidth (5 # 10); strokeStyle "#cbd5e1"].

(** [cleanV % labelStep === 0 && cleanV !== 0]. *)
Definition labelled (config : GameConfig) (cleanV : Q) : bool :=
  JS.rem_is_zero cleanV (labelStep config) && negb (Qeq_bool cleanV 0).

(** The body of the loop over x: one vertical line and perhaps its label. *)
Definition vertical_line (config : GameConfig) (dimensions : Dimensions)
    (v : Q) : JS.fallible (list Cmd) :=
  let cleanX := clean v in
  if JS.ltb cleanX (fst (xRange config))
     || JS.ltb (snd (xRange config)) cleanX
  then JS.ret []
  else
    p1 <- toPixel config dimensions
            {| x := cleanX; y := fst (yRange config) |} ;;
    p2 <- toPixel config dimensions
            {| x := cleanX; y := snd (yRange config) |} ;;
    label <-
      (if labelled config cleanX then
         textPos <- toPixel config dimensions {| x := cleanX; y := 0 |} ;;
         let textY :=
           match originPos config with
           | bottom_left => height dimensions - 20
           | center => y textPos + 15
           end in
         JS.ret [fillStyle "#64748b";
                 fillText [App.Num cleanX] (x textPos) textY]
       else JS.ret []) ;;
    JS.ret ([beginPath] ++ line_style config cleanX
            ++ [moveTo (x p1) (y p1); lineTo (x p2) (y p2); stroke]
            ++ label).

(** The body of the loop over y. *)
Definition horizontal_line (config : GameConfig) (dimensions : Dimensions)
    (v : Q) : JS.fallible (list Cmd) :=
  let cleanY := clean v in
  if JS.ltb cleanY (fst (yRange config))
     || JS.ltb (snd (yRange config)) cleanY
  then JS.ret []
  else
    p1 <- toPixel config dimensions
            {| x := fst (xRange config); y := cleanY |} ;;
    p2 <- toPixel config dimensions
            {| x := snd (xRange config); y := cleanY |} ;;
    label <-
      (if labelled config cleanY then
         textPos <- toPixel config dimensions {| x := 0; y := cleanY |} ;;
         let textX :=
           match originPos config with
           | bottom_left => 20
           | center => x textPos - 20
           end in
         JS.ret [fillStyle "#64748b";
                 fillText [App.Num cleanY] textX (y textPos)]
       else JS.ret []) ;;
    JS.ret ([beginPath] ++ line_style config cleanY
            ++ [moveTo (x p1) (y p1); lineTo (x p2) (y p2); stroke]
            ++ label).

Definition vertical_lines (config : GameConfig) (dimensions : Dimensions)
    : JS.fallible (list Cmd) :=
  for_loop
    (rounds (fst (xRange config)) (snd (xRange config)) (gridStep config))
    (fst (xRange config)) (snd (xRange config)) (gridStep config)
    (vertical_line config dimensions).

Definition horizontal_lines (config : GameConfig) (dimensions : Dimensions)
    : JS.fallible (list Cmd) :=
  for_loop
    (rounds (fst (yRange config)) (snd (yRange config)) (gridStep config))
    (fst (yRange config)) (snd (yRange config)) (gridStep config)
    (horizontal_line config dimensions).

(** The label of the origin. *)
Definition origin_label (config : GameConfig) (dimensions : Dimensions)
    : JS.fallible (list Cmd) :=
  originPx <- toPixel config dimensions {| x := 0; y := 0 |} ;;
  JS.ret [fillStyle "#334155"; font "bold 12px sans-serif";
          match originPos config with
          | bottom_left => fillText [App.Lit "0"] 15 (height dimensions - 15)
          | center => fillText [App.Lit "0"] (x originPx - 10) (y originPx + 15)
          end].

(** The arrowheads at the positive ends of the axes. *)
Definition axis_arrows (config : GameConfig) (dimensions : Dimensions)
    : JS.fallible (list Cmd) :=
  xEnd <- toPixel config dimensions {| x := snd (xRange config); y := 0 |} ;;
  yEnd <- toPixel config dimensions {| x := 0; y := snd (yRange config) |} ;;
  JS.ret [beginPath;
          moveTo (x xEnd) (y xEnd);
          lineTo (x xEnd - 8) (y xEnd - 4);
          lineTo (x xEnd - 8) (y xEnd + 4);
          fillStyle "#334155";
          fill;
          fillText [App.Lit "X"] (x xEnd - 15) (y xEnd - 15);
          beginPath;
          moveTo (x yEnd) (y yEnd);
          lineTo (x yEnd - 4) (y yEnd + 8);
          lineTo (x yEnd + 4) (y yEnd + 8);
          fill;
          fillText [App.Lit "Y"] (x yEnd + 15) (y yEnd + 15)].

(** The marker of the last result: a star, or a cross of half-size 8. *)
Definition result_marker (config : GameConfig) (dimensions : Dimensions)
    (lastResult : option App.LastResult) : JS.fallible (list Cmd) :=
  match lastResult with
  | None => JS.ret []
  | Some r =>
      p <- toPixel config dimensions (App.clickPos r) ;;
      if App.success r then
        JS.ret [font "40px serif"; fillText [App.Lit "⭐"] (x p) (y p)]
      else
        let size := 8 in
        JS.ret [strokeStyle "#ef4444"; lineWidth 3; beginPath;
                moveTo (x p - size) (y p - size);
                lineTo (x p + size) (y p + size);
                moveTo (x p + size) (y p - size);
                lineTo (x p - size) (y p + size);
                stroke]
  end.

(** The font of the labels: [12px], a space, and [Noto Sans SC] in double
    quotes. *)
Definition label_font : string :=
  ("12px " ++ String Storage.quote ("Noto Sans SC" ++ String Storage.quote ""))
  %string.

(** The preamble: the backing store is scaled by the device pixel ratio
    ([window.devicePixelRatio || 1]), the style size stays in CSS pixels,
    and the background is cleared. *)
Definition prepare (dimensions : Dimensions) (devicePixelRatio : option Q)
    : list Cmd :=
  let dpr :=
    match devicePixelRatio with
    | Some r => JS.or_else r 1
    | None => 1
    end in
  [set_canvas_width (width dimensions * dpr);
   set_canvas_height (height dimensions * dpr);
   scale dpr dpr;
   set_style_width [App.Num (width dimensions); App.Lit "px"];
   set_style_height [App.Num (height dimensions); App.Lit "px"];
   fillStyle "#f8fafc";
   fillRect 0 0 (width dimensions) (height dimensions);
   textAlign "center"; textBaseline "middle"; font label_font].

(** The drawing effect. *)
Definition draw (surface : Surface) (config : GameConfig)
    (dimensions : Dimensions) (devicePixelRatio : option Q)
    (lastResult : option App.LastResult) : JS.fallible (list Cmd) :=
  match surface with
  | NoCanvas | NoContext => JS.ret []
  | Context2D =>
      vs <- vertical_lines config dimensions ;;
      hs <- horizontal_lines config dimensions ;;
      o <- origin_label config dimensions ;;
      a <- axis_arrows config dimensions ;;
      m <- result_marker config dimensions lastResult ;;
      JS.ret (prepare dimensions devicePixelRatio ++ vs ++ hs ++ o ++ a ++ m)
  end.

(** *** Reading a drawing *)

(** The end points of a path segment lie within the inset rectangle. *)
Definition within_inset (dimensions : Dimensions) (c : Cmd) : Prop :=
  match c with
  | moveTo px py | lineTo px py =>
      padding <= px <= width dimensions - padding /\
      padding <= py <= height dimensions - padding
  | _ => True
  end.

(** A text that is an interpolated number, as the grid labels are, shows a
    non-zero multiple of the label step. *)
Definition label_rule (config : GameConfig) (c : Cmd) : Prop :=
  match c with
  | fillText [App.Num v] _ _ =>
      ~ v == 0 /\ exists k : Z, v == inject_Z k * labelStep config
  | _ => True
  end.

(** The number of lines stroked, and of those given the axis width. *)
Definition strokes (cmds : list Cmd) : nat :=
  List.length
    (filter (fun c => match c with stroke => true | _ => false end) cmds).

Definition axis_lines (cmds : list Cmd) : nat :=
  List.length
    (filter (fun c => match c with
                      | lineWidth w => Qeq_bool w (25 # 10)
                      | _ => false
                      end) cmds).

End Renderer.

(* ------------------------------------------------------------------ *)
(** ** Situations the properties are evaluated in *)

(** The introductory tier on a container 600 pixels wide, the canvas at the
    top left corner of the viewport. *)
Definition intro_600 : Canvas.Dimensions :=
  Canvas.updateSize (GAME_MODES Intro) (Some 600%Z) Canvas.initial_dimensions.

Definition at_origin : Canvas.DOMRect :=
  {| Canvas.rect_left := 0; Canvas.rect_top := 0 |}.

(** The app just mounted, both random draws being zero: the target is the
    origin. *)
Definition mounted_at_origin : JS.fallible App.State :=
  App.run (App.initial App.zero_progress) [App.Mount 0 0].

(** A player with 20 completions of the introductory tier, in that tier. *)
Definition intro_done : App.State :=
  App.initial (App.spread_set App.zero_progress Intro 20).

(* ================================================================== *)
(** * Properties *)

(** ** Numerics *)

Module JSFacts.

Lemma div_defined (a b : Q) : ~ b == 0 -> JS.div a b = Some (a / b).
Proof.
  intros Hb. unfold JS.div.
  destruct (Qeq_bool b 0) eqn:E; [ | reflexivity ].
  apply Qeq_bool_iff in E. contradiction.
Qed.

Lemma div_undefined (a b : Q) : b == 0 -> JS.div a b = None.
Proof.
  intros Hb. unfold JS.div.
  apply Qeq_bool_iff in Hb. now rewrite Hb.
Qed.

Lemma div_inv (a b q : Q) : JS.div a b = Some q -> ~ b == 0 /\ q = a / b.
Proof.
  unfold JS.div. destruct (Qeq_bool b 0) eqn:E; [ discriminate | ].
  intros [= <-]. split; [ now apply Qeq_bool_neq | reflexivity ].
Qed.

(** [Math.floor] brackets its argument. *)
Lemma floor_bounds (q : Q) :
  inject_Z (Qfloor q) <= q /\ q < inject_Z (Qfloor q) + 1.
Proof.
  split; [ apply Qfloor_le | ].
  pose proof (Qlt_floor q) as H. now rewrite inject_Z_plus in H.
Qed.

(** An integer between [q - 1] and [q] is the floor of [q]. *)
Lemma floor_unique (q : Q) (k : Z) :
  inject_Z k <= q -> q < inject_Z k + 1 -> Qfloor q = k.
Proof.
  intros Hlo Hhi. destruct (floor_bounds q) as [Flo Fhi].
  assert (L1 : (k < Qfloor q + 1)%Z).
  { rewrite Zlt_Qlt, inject_Z_plus. change (inject_Z 1) with 1. lra. }
  assert (L2 : (Qfloor q < k + 1)%Z).
  { rewrite Zlt_Qlt, inject_Z_plus. change (inject_Z 1) with 1. lra. }
  lia.
Qed.

Lemma Math_round_compat (a b : Q) :
  a == b -> JS.Math_round a = JS.Math_round b.
Proof.
  intros E. unfold JS.Math_round. now rewrite E.
Qed.

(** Rounding leaves integers alone. *)
Lemma Math_round_integer (k : Z) : JS.Math_round (inject_Z k) = inject_Z k.
Proof.
  unfold JS.Math_round. f_equal.
  apply floor_unique; lra.
Qed.

Lemma Math_round_monotone (a b : Q) :
  a <= b -> JS.Math_round a <= JS.Math_round b.
Proof.
  intros H. unfold JS.Math_round. rewrite <- Zle_Qle.
  apply Qfloor_resp_le. lra.
Qed.

(** Rounding does not cross an integer bound. *)
Lemma Math_round_between (q : Q) (lo hi : Z) :
  inject_Z lo <= q <= inject_Z hi ->
  inject_Z lo <= JS.Math_round q <= inject_Z hi.
Proof.
  intros [L H]. split.
  - rewrite <- (Math_round_integer lo). now apply Math_round_monotone.
  - rewrite <- (Math_round_integer hi). now apply Math_round_monotone.
Qed.

(** The rounded value is between two integers exactly when the argument is
    between them, up to one half. *)
Lemma Math_round_range (q : Q) (lo hi : Z) :
  inject_Z lo <= JS.Math_round q <= inject_Z hi <->
  inject_Z lo - (1 # 2) <= q < inject_Z hi + (1 # 2).
Proof.
  unfold JS.Math_round.
  destruct (floor_bounds (q + (1 # 2))) as [Flo Fhi].
  rewrite <- !Zle_Qle. split.
  - intros [L H]. split.
    + rewrite Zle_Qle in L. lra.
    + assert (H' : (Qfloor (q + (1 # 2)) + 1 <= hi + 1)%Z) by lia.
      rewrite Zle_Qle, !inject_Z_plus in H'.
      change (inject_Z 1) with 1 in H'. lra.
  - intros [L H]. split.
    + rewrite <- (Qfloor_Z lo). apply Qfloor_resp_le. lra.
    + assert (H' : (Qfloor (q + (1 # 2)) < hi + 1)%Z).
      { rewrite Zlt_Qlt, inject_Z_plus. change (inject_Z 1) with 1. lra. }
      lia.
Qed.

(** The rounded value is within one half of the argument. *)
Lemma Math_round_near (q : Q) :
  q - (1 # 2) < JS.Math_round q /\ JS.Math_round q <= q + (1 # 2).
Proof.
  unfold JS.Math_round.
  destruct (floor_bounds (q + (1 # 2))) as [Flo Fhi]. split; lra.
Qed.

(** [sqrt_leb] decides the comparison of the real square root. *)
Lemma sqrt_leb_spec (a t : Q) :
  0 <= a ->
  JS.sqrt_leb a t = true <-> (sqrt (Q2R a) <= Q2R t)%R.
Proof.
  intros Ha. unfold JS.sqrt_leb.
  assert (Ra : (0 <= Q2R a)%R).
  { replace 0%R with (Q2R 0) by (unfold Q2R; simpl; Lra.lra).
    now apply Qle_Rle. }
  rewrite andb_true_iff, !Qle_bool_iff. split.
  - intros [Ht Hle].
    assert (Rt : (0 <= Q2R t)%R).
    { replace 0%R with (Q2R 0) by (unfold Q2R; simpl; Lra.lra).
      now apply Qle_Rle. }
    apply Qle_Rle in Hle. rewrite Q2R_mult in Hle.
    rewrite <- (sqrt_square (Q2R t)) by exact Rt.
    now apply sqrt_le_1_alt.
  - intros Hs.
    assert (Rt : (0 <= Q2R t)%R).
    { apply Rle_trans with (sqrt (Q2R a)); [ apply sqrt_pos | exact Hs ]. }
    split.
    + apply Rle_Qle. replace (Q2R 0) with 0%R by (unfold Q2R; simpl; Lra.lra).
      exact Rt.
    + apply Rle_Qle. rewrite Q2R_mult.
      rewrite <- (sqrt_sqrt (Q2R a)) by exact Ra.
      apply Rmult_le_compat; auto using sqrt_pos.
Qed.

Lemma sum_squares_nonneg (a b : Q) : 0 <= a * a + b * b.
Proof. nra. Qed.

(** On numbers [a || 0] is [a]. *)
Lemma or_else_zero (a : Q) : JS.or_else a 0 == a.
Proof.
  unfold JS.or_else. destruct (Qeq_bool a 0) eqn:E; [ | reflexivity ].
  apply Qeq_bool_iff in E. now rewrite E.
Qed.

Lemma ltb_spec (a b : Q) : JS.ltb a b = true <-> a < b.
Proof.
  unfold JS.ltb. rewrite negb_true_iff.
  destruct (Qle_bool b a) eqn:E.
  - apply Qle_bool_iff in E. split; [ discriminate | lra ].
  - split; [ intros _ | reflexivity ].
    apply Qnot_le_lt. intros H. apply Qle_bool_iff in H. congruence.
Qed.

End JSFacts.

(* ------------------------------------------------------------------ *)
(** ** The parser on small texts *)

Module JSONFacts.

Import JSON.

Local Open Scope string_scope.

(** Texts the parser accepts. *)
Lemma parse_accepts :
  parse "{}" = Some (JObject []) /\
  parse " [ ] " = Some (JArray []) /\
  parse "null" = Some JNull /\
  parse "[true, false]" = Some (JArray [JBool true; JBool false]) /\
  parse "20" = Some (JNumber 20) /\
  parse "[[], {}]" = Some (JArray [JArray []; JObject []]).
Proof. repeat split. Qed.

(** Texts on which it reports a syntax error. *)
Lemma parse_rejects :
  parse "" = None /\
  parse "{" = None /\
  parse "[1,]" = None /\
  parse "{,}" = None /\
  parse "01" = None /\
  parse "1 2" = None /\
  parse "nul" = None /\
  parse "[1}" = None /\
  parse "undefined" = None.
Proof. repeat split. Qed.

(** Numbers are read exactly. *)
Lemma parse_numbers :
  (exists q, parse "-2.50e1" = Some (JNumber q) /\ q == -25) /\
  (exists q, parse "125E-3" = Some (JNumber q) /\ q == 1 # 8) /\
  (exists q, parse "0.5" = Some (JNumber q) /\ q == 1 # 2).
Proof. repeat split; eexists; split; reflexivity. Qed.

(** The empty text is never accepted, so a stored empty string and a
    stored text that fails to parse are treated alike. *)
Lemma parse_nonempty (text : string) (v : value) :
  parse text = Some v -> text <> "".
Proof. intros H ->. discriminate. Qed.

End JSONFacts.

(* ------------------------------------------------------------------ *)
(** ** The coordinate mapper *)

Module CanvasFacts.

Import Canvas.

(** The ranges and steps of the four tiers. *)
Lemma spans_positive (m : DifficultyLevel) :
  0 < xSpan (GAME_MODES m) /\ 0 < ySpan (GAME_MODES m).
Proof. destruct m; split; reflexivity. Qed.

Section Mapping.

Variable config : GameConfig.
Variable dimensions : Dimensions.

Hypothesis xSpan_nonzero : ~ xSpan config == 0.
Hypothesis ySpan_nonzero : ~ ySpan config == 0.
Hypothesis drawW_nonzero : ~ drawW dimensions == 0.
Hypothesis drawH_nonzero : ~ drawH dimensions == 0.

Lemma toPixel_defined (p : Point) :
  toPixel config dimensions p =
  Some {| x := padding
               + (x p - fst (xRange config)) / xSpan config
                 * drawW dimensions;
          y := height dimensions - padding
               - (y p - fst (yRange config)) / ySpan config
                 * drawH dimensions |}.
Proof.
  unfold toPixel, JS.bind, JS.ret.
  now rewrite !JSFacts.div_defined by assumption.
Qed.

Lemma toLogical_lx_defined (p : Point) :
  toLogical_lx config dimensions p =
  Some ((x p - padding) / drawW dimensions * xSpan config
        + fst (xRange config)).
Proof.
  unfold toLogical_lx, JS.bind, JS.ret.
  now rewrite JSFacts.div_defined by assumption.
Qed.

Lemma toLogical_ly_defined (p : Point) :
  toLogical_ly config dimensions p =
  Some ((height dimensions - padding - y p) / drawH dimensions
        * ySpan config + fst (yRange config)).
Proof.
  unfold toLogical_ly, JS.bind, JS.ret.
  now rewrite JSFacts.div_defined by assumption.
Qed.

(** Before rounding, [toLogical] inverts [toPixel] exactly. *)
Lemma lx_ly_invert_toPixel (p q : Point) :
  toPixel config dimensions p = Some q ->
  exists lx ly,
    toLogical_lx config dimensions q = Some lx /\ lx == x p /\
    toLogical_ly config dimensions q = Some ly /\ ly == y p.
Proof.
  rewrite toPixel_defined. intros [= <-].
  rewrite toLogical_lx_defined, toLogical_ly_defined.
  do 2 eexists. split; [ reflexivity | ]. split; [ | split; [ reflexivity | ] ].
  - cbn [x y]. field. split; assumption.
  - cbn [x y]. field. split; assumption.
Qed.

(** After rounding, the round trip is [Math.round] of each coordinate. *)
Lemma toLogical_toPixel (p q : Point) :
  toPixel config dimensions p = Some q ->
  toLogical config dimensions q =
  Some {| x := JS.Math_round (x p); y := JS.Math_round (y p) |}.
Proof.
  intros Hq.
  destruct (lx_ly_invert_toPixel p q Hq) as (lx & ly & Hx & Ex & Hy & Ey).
  unfold toLogical, JS.bind, JS.ret. rewrite Hx, Hy.
  now rewrite (JSFacts.Math_round_compat _ _ Ex),
              (JSFacts.Math_round_compat _ _ Ey).
Qed.

End Mapping.

Section Rectangle.

Variable config : GameConfig.
Variable dimensions : Dimensions.

Hypothesis xSpan_positive : 0 < xSpan config.
Hypothesis ySpan_positive : 0 < ySpan config.
Hypothesis drawW_positive : 0 < drawW dimensions.
Hypothesis drawH_positive : 0 < drawH dimensions.

(** Before rounding, the logical point is inside the configured range
    exactly when the pixel is inside the inset rectangle. *)
Lemma lx_in_range_iff (p : Point) :
  exists lx,
    toLogical_lx config dimensions p = Some lx /\
    (fst (xRange config) <= lx <= snd (xRange config) <->
     padding <= x p <= width dimensions - padding).
Proof.
  eexists. split.
  { apply toLogical_lx_defined. lra. }
  unfold xSpan, drawW in *.
  set (t := (x p - padding) / (width dimensions - padding * 2)).
  assert (Ht : t * (width dimensions - padding * 2) == x p - padding).
  { unfold t. field. lra. }
  split; intros [H1 H2]; split; nra.
Qed.

Lemma ly_in_range_iff (p : Point) :
  exists ly,
    toLogical_ly config dimensions p = Some ly /\
    (fst (yRange config) <= ly <= snd (yRange config) <->
     padding <= y p <= height dimensions - padding).
Proof.
  eexists. split.
  { apply toLogical_ly_defined. lra. }
  unfold ySpan, drawH in *.
  set (t := (height dimensions - padding - y p)
            / (height dimensions - padding * 2)).
  assert (Ht : t * (height dimensions - padding * 2)
               == height dimensions - padding - y p).
  { unfold t. field. lra. }
  split; intros [H1 H2]; split; nra.
Qed.

End Rectangle.

(** Whatever [toLogical] returns has integer coordinates. *)
Lemma toLogical_integral (config : GameConfig) (dimensions : Dimensions)
    (p q : Point) :
  toLogical config dimensions p = Some q ->
  exists kx ky : Z, q = {| x := inject_Z kx; y := inject_Z ky |}.
Proof.
  unfold toLogical, JS.bind, JS.ret.
  destruct (toLogical_lx config dimensions p) as [lx | ]; [ | discriminate ].
  destruct (toLogical_ly config dimensions p) as [ly | ]; [ | discriminate ].
  intros [= <-]. unfold JS.Math_round. eauto.
Qed.

(** [handleClick] passes on what [toLogical] returns, unchanged. *)
Lemma handleClick_delivers (config : GameConfig) (dimensions : Dimensions)
    (rect : DOMRect) (e : MouseEvent) :
  handleClick config dimensions (Some rect) e =
  Some (toLogical config dimensions
          {| x := clientX e - rect_left rect;
             y := clientY e - rect_top rect |}).
Proof. reflexivity. Qed.

(** The dimensions [updateSize] sets. *)
Lemma updateSize_width (config : GameConfig) (clientWidth : Z)
    (d : Dimensions) :
  width (updateSize config (Some clientWidth) d) = inject_Z clientWidth.
Proof. reflexivity. Qed.

Lemma updateSize_height (config : GameConfig) (clientWidth : Z)
    (d : Dimensions) :
  height (updateSize config (Some clientWidth) d) ==
  if level_eqb (id config) Intro
  then inject_Z clientWidth
  else inject_Z clientWidth * (3 # 4).
Proof.
  cbn [updateSize height].
  destruct (level_eqb (id config) Intro); field.
Qed.

(** At a point with integer coordinates the round trip is exact. *)
Lemma roundtrip_on_integers (config : GameConfig) (dimensions : Dimensions)
    (kx ky : Z) (q : Point) :
  ~ xSpan config == 0 -> ~ ySpan config == 0 ->
  ~ drawW dimensions == 0 -> ~ drawH dimensions == 0 ->
  toPixel config dimensions {| x := inject_Z kx; y := inject_Z ky |} = Some q ->
  toLogical config dimensions q
    = Some {| x := inject_Z kx; y := inject_Z ky |}.
Proof.
  intros Hx Hy Hw Hh Hq.
  rewrite (toLogical_toPixel config dimensions Hx Hy Hw Hh _ _ Hq).
  cbn [x y]. now rewrite !JSFacts.Math_round_integer.
Qed.

(** In each tier, a pixel inside the inset rectangle maps to a logical
    point inside the tier's range: the bounds are integers, which rounding
    cannot cross. *)
Lemma toLogical_in_range (m : DifficultyLevel) (dimensions : Dimensions)
    (p : Point) :
  0 < drawW dimensions -> 0 < drawH dimensions ->
  padding <= x p <= width dimensions - padding ->
  padding <= y p <= height dimensions - padding ->
  exists q,
    toLogical (GAME_MODES m) dimensions p = Some q /\
    fst (xRange (GAME_MODES m)) <= x q <= snd (xRange (GAME_MODES m)) /\
    fst (yRange (GAME_MODES m)) <= y q <= snd (yRange (GAME_MODES m)).
Proof.
  intros Hw Hh Hpx Hpy.
  destruct (spans_positive m) as [Sx Sy].
  destruct (lx_in_range_iff (GAME_MODES m) dimensions Sx Hw p)
    as (lx & Elx & Ix).
  destruct (ly_in_range_iff (GAME_MODES m) dimensions Sy Hh p)
    as (ly & Ely & Iy).
  apply Ix in Hpx. apply Iy in Hpy.
  exists {| x := JS.Math_round lx; y := JS.Math_round ly |}.
  split; [ unfold toLogical, JS.bind, JS.ret; now rewrite Elx, Ely | ].
  cbn [x y].
  destruct m; cbn [GAME_MODES xRange yRange fst snd] in *; split;
    first [ apply (JSFacts.Math_round_between _ 0 10)
          | apply (JSFacts.Math_round_between _ (-10) 10)
          | apply (JSFacts.Math_round_between _ (-50) 50)
          | apply (JSFacts.Math_round_between _ (-240) 240)
          | apply (JSFacts.Math_round_between _ (-180) 180) ];
    assumption.
Qed.

End CanvasFacts.

(* ------------------------------------------------------------------ *)
(** ** Claims about the mapper *)

(** C1.  The click handler of the canvas does not deliver the exact logical
    point.  In the introductory tier at 600 by 600 pixels, with the target at
    the origin, a click at pixel (61, 560) has the exact logical point
    (21/52, 0), farther than the tolerance 0.4 from the target; what reaches
    the click evaluation is its rounding (0, 0), and the click is scored as
    a hit, whereas the exact point evaluates to a miss. *)
Theorem handleClick_delivers_rounded_point :
  let config := GAME_MODES Intro in
  let pixel := {| x := 61; y := 560 |} in
  let e := {| Canvas.clientX := 61; Canvas.clientY := 560 |} in
  exists lx ly s0,
    Canvas.toLogical_lx config intro_600 pixel = Some lx /\ lx == 21 # 52 /\
    Canvas.toLogical_ly config intro_600 pixel = Some ly /\ ly == 0 /\
    Canvas.handleClick config intro_600 (Some at_origin) e
      = Some (Some {| x := 0; y := 0 |}) /\
    mounted_at_origin = Some s0 /\
    App.target s0 = {| x := 0; y := 0 |} /\
    (exists w,
       Game.pointerClick (Some at_origin) e 0
         {| Game.app := s0; Game.dimensions := intro_600 |} = Some w /\
       option_map App.success (App.lastResult (Game.app w)) = Some true /\
       App.score (Game.app w) == 1) /\
    option_map App.success
      (App.lastResult (App.handleCanvasClick {| x := lx; y := ly |} 0 s0))
      = Some false.
Proof.
  cbv zeta. do 3 eexists.
  split; [ vm_compute; reflexivity | ].
  split; [ reflexivity | ].
  split; [ vm_compute; reflexivity | ].
  split; [ reflexivity | ].
  split; [ vm_compute; reflexivity | ].
  split; [ vm_compute; reflexivity | ].
  split; [ reflexivity | ].
  split; [ | vm_compute; reflexivity ].
  eexists. split; [ vm_compute; reflexivity | ].
  split; reflexivity.
Qed.

(** C2, as stated, fails.  In the introductory tier at 600 by 600 pixels the
    in-range point (2.25, 7.75) maps to a pixel, and that pixel maps back to
    (2, 8): a quarter of a unit off in each coordinate, not within 0.01. *)
Lemma roundtrip_rounds_fractions :
  let config := GAME_MODES Intro in
  let p := {| x := 9 # 4; y := 31 # 4 |} in
  (fst (xRange config) <= x p <= snd (xRange config)) /\
  (fst (yRange config) <= y p <= snd (yRange config)) /\
  (q <- Canvas.toPixel config intro_600 p ;;
   Canvas.toLogical config intro_600 q) = Some {| x := 2; y := 8 |} /\
  ~ Qabs (2 - x p) <= 1 # 100 /\
  ~ Qabs (8 - y p) <= 1 # 100.
Proof.
  cbv zeta. repeat split; try (vm_compute; congruence).
Qed.

(** C2, amended.  For every logical point and every viewport whose drawable
    width and height are not zero, [toLogical (toPixel p)] is [p] with each
    coordinate rounded to the nearest integer.  It is therefore within one
    half of a logical unit of [p] in each coordinate, and it is [p] itself
    when the coordinates of [p] are integers. *)
Theorem roundtrip_is_rounding (config : GameConfig)
    (dimensions : Canvas.Dimensions) (p : Point) :
  ~ Canvas.xSpan config == 0 -> ~ Canvas.ySpan config == 0 ->
  ~ Canvas.drawW dimensions == 0 -> ~ Canvas.drawH dimensions == 0 ->
  exists q r,
    Canvas.toPixel config dimensions p = Some q /\
    Canvas.toLogical config dimensions q = Some r /\
    r = {| x := JS.Math_round (x p); y := JS.Math_round (y p) |} /\
    Qabs (x r - x p) <= 1 # 2 /\
    Qabs (y r - y p) <= 1 # 2 /\
    (forall kx ky : Z, p = {| x := inject_Z kx; y := inject_Z ky |} -> r = p).
Proof.
  intros Hx Hy Hw Hh.
  eexists. eexists.
  split; [ now apply CanvasFacts.toPixel_defined | ].
  split.
  { eapply CanvasFacts.toLogical_toPixel; try eassumption.
    now apply CanvasFacts.toPixel_defined. }
  split; [ reflexivity | ]. cbn [x y].
  pose proof (JSFacts.Math_round_near (x p)) as [X1 X2].
  pose proof (JSFacts.Math_round_near (y p)) as [Y1 Y2].
  split; [ apply Qabs_Qle_condition; split; lra | ].
  split; [ apply Qabs_Qle_condition; split; lra | ].
  intros kx ky ->. cbn [x y].
  now rewrite !JSFacts.Math_round_integer.
Qed.

(** The point (2.25, 7.75) of the introductory tier at 600 by 600 pixels
    comes back as (2, 8). *)
Lemma roundtrip_is_rounding_witness :
  ~ Canvas.xSpan (GAME_MODES Intro) == 0 /\
  ~ Canvas.drawW intro_600 == 0 /\
  exists q,
    Canvas.toPixel (GAME_MODES Intro) intro_600 {| x := 9 # 4; y := 31 # 4 |}
      = Some q /\
    Canvas.toLogical (GAME_MODES Intro) intro_600 q
      = Some {| x := 2; y := 8 |}.
Proof.
  assert (Hx : ~ Canvas.xSpan (GAME_MODES Intro) == 0) by discriminate.
  assert (Hy : ~ Canvas.ySpan (GAME_MODES Intro) == 0) by discriminate.
  assert (Hw : ~ Canvas.drawW intro_600 == 0) by discriminate.
  assert (Hh : ~ Canvas.drawH intro_600 == 0) by discriminate.
  split; [ exact Hx | split; [ exact Hw | ] ].
  destruct (roundtrip_is_rounding (GAME_MODES Intro) intro_600
              {| x := 9 # 4; y := 31 # 4 |} Hx Hy Hw Hh)
    as (q & r & Eq & Er & -> & _).
  exists q. split; [ exact Eq | exact Er ].
Defined.

(** C10, as stated, fails.  In the introductory tier at 600 by 600 pixels
    the pixel (39, 300) lies in the margin, left of the inset rectangle, and
    its exact logical abscissa -1/52 is outside the range; yet [toLogical]
    returns (0, 5), which is inside the range. *)
Lemma margin_click_rounds_into_range :
  let config := GAME_MODES Intro in
  let pixel := {| x := 39; y := 300 |} in
  ~ (Canvas.padding <= x pixel <= Canvas.width intro_600 - Canvas.padding) /\
  (exists lx,
     Canvas.toLogical_lx config intro_600 pixel = Some lx /\
     lx < fst (xRange config)) /\
  exists q,
    Canvas.toLogical config intro_600 pixel = Some q /\
    q = {| x := 0; y := 5 |} /\
    fst (xRange config) <= x q <= snd (xRange config) /\
    fst (yRange config) <= y q <= snd (yRange config).
Proof.
  cbv zeta. split; [ | split ].
  - intros [H _]. vm_compute in H. congruence.
  - eexists. split; [ vm_compute; reflexivity | reflexivity ].
  - eexists. split; [ vm_compute; reflexivity | ].
    split; [ reflexivity | ].
    repeat split; vm_compute; congruence.
Qed.

(** C10, amended.  [toLogical] does not clamp, but it rounds.  In each tier
    and for every viewport with positive drawable width and height, the
    logical point before rounding lies within the tier's range exactly when
    the pixel lies within the inset rectangle, and the point [toLogical]
    returns lies within the range exactly when the point before rounding
    lies within the range widened by one half (closed below, open above).
    The click handler checks no range: whatever point it is given, it
    evaluates it against the target. *)
Theorem toLogical_range_up_to_rounding (m : DifficultyLevel)
    (dimensions : Canvas.Dimensions) (p clickPos : Point) (now : Z)
    (s : App.State) :
  0 < Canvas.drawW dimensions -> 0 < Canvas.drawH dimensions ->
  let c := GAME_MODES m in
  (exists lx ly q,
     Canvas.toLogical_lx c dimensions p = Some lx /\
     Canvas.toLogical_ly c dimensions p = Some ly /\
     Canvas.toLogical c dimensions p = Some q /\
     q = {| x := JS.Math_round lx; y := JS.Math_round ly |} /\
     (fst (xRange c) <= lx <= snd (xRange c) <->
      Canvas.padding <= x p <= Canvas.width dimensions - Canvas.padding) /\
     (fst (yRange c) <= ly <= snd (yRange c) <->
      Canvas.padding <= y p <= Canvas.height dimensions - Canvas.padding) /\
     (fst (xRange c) <= x q <= snd (xRange c) <->
      fst (xRange c) - (1 # 2) <= lx < snd (xRange c) + (1 # 2)) /\
     (fst (yRange c) <= y q <= snd (yRange c) <->
      fst (yRange c) - (1 # 2) <= ly < snd (yRange c) + (1 # 2))) /\
  exists hit,
    App.lastResult (App.handleCanvasClick clickPos now s) =
    Some {| App.success := hit;
            App.clickPos := if hit then App.target s else clickPos;
            App.timestamp := now |}.
Proof.
  intros Hw Hh c. split.
  - destruct (CanvasFacts.spans_positive m) as [Sx Sy].
    destruct (CanvasFacts.lx_in_range_iff c dimensions Sx Hw p)
      as (lx & Elx & Ix).
    destruct (CanvasFacts.ly_in_range_iff c dimensions Sy Hh p)
      as (ly & Ely & Iy).
    exists lx, ly. eexists.
    split; [ exact Elx | ]. split; [ exact Ely | ].
    split; [ unfold Canvas.toLogical, JS.bind, JS.ret; now rewrite Elx, Ely | ].
    split; [ reflexivity | ].
    split; [ exact Ix | ]. split; [ exact Iy | ].
    cbn [x y]. subst c.
    destruct m; cbn [GAME_MODES xRange yRange fst snd]; split;
      first [ apply (JSFacts.Math_round_range _ 0 10)
            | apply (JSFacts.Math_round_range _ (-10) 10)
            | apply (JSFacts.Math_round_range _ (-50) 50)
            | apply (JSFacts.Math_round_range _ (-240) 240)
            | apply (JSFacts.Math_round_range _ (-180) 180) ].
  - unfold App.handleCanvasClick.
    destruct (JS.sqrt_leb _ _); [ exists true | exists false ]; reflexivity.
Qed.

(** In the introductory tier at 600 by 600 pixels the pixel (0, 300), at the
    left edge of the canvas, maps to (-1, 5), outside the range. *)
Lemma toLogical_range_up_to_rounding_witness :
  0 < Canvas.drawW intro_600 /\ 0 < Canvas.drawH intro_600 /\
  exists q,
    Canvas.toLogical (GAME_MODES Intro) intro_600 {| x := 0; y := 300 |}
      = Some q /\
    x q == -1 /\
    ~ (fst (xRange (GAME_MODES Intro)) <= x q <= snd (xRange (GAME_MODES Intro))).
Proof.
  assert (Hw : 0 < Canvas.drawW intro_600) by reflexivity.
  assert (Hh : 0 < Canvas.drawH intro_600) by reflexivity.
  split; [ exact Hw | split; [ exact Hh | ] ].
  destruct (toLogical_range_up_to_rounding Intro intro_600
              {| x := 0; y := 300 |} {| x := 0; y := 0 |} 0
              (App.initial App.zero_progress) Hw Hh)
    as [(lx & ly & q & Elx & Ely & Eq & -> & _ & _ & Rx & _) _].
  exists {| x := JS.Math_round lx; y := JS.Math_round ly |}.
  split; [ exact Eq | ].
  assert (E : lx = (0 - Canvas.padding) / Canvas.drawW intro_600
                   * Canvas.xSpan (GAME_MODES Intro)
                   + fst (xRange (GAME_MODES Intro))).
  { rewrite CanvasFacts.toLogical_lx_defined in Elx by discriminate.
    now injection Elx as <-. }
  cbn [x]. subst lx. split; [ reflexivity | ].
  intros [H _]. vm_compute in H. congruence.
Defined.

(** C6, as stated, fails: no minimum width is reserved.  A container 80
    pixels wide in the introductory tier gives a drawable width of zero, and
    [toLogical] then divides by zero at every pixel. *)
Lemma narrow_container_zero_divisor :
  let d := Canvas.updateSize (GAME_MODES Intro) (Some 80%Z)
             Canvas.initial_dimensions in
  Canvas.drawW d == 0 /\
  (forall p, Canvas.toLogical (GAME_MODES Intro) d p = None) /\
  ~ (forall config clientWidth d0,
       (0 <= clientWidth)%Z ->
       0 < Canvas.drawW (Canvas.updateSize config (Some clientWidth) d0) /\
       0 < Canvas.drawH (Canvas.updateSize config (Some clientWidth) d0)).
Proof.
  cbv zeta. split; [ reflexivity | split ].
  - intros p. unfold Canvas.toLogical, Canvas.toLogical_lx, JS.bind.
    now rewrite JSFacts.div_undefined by reflexivity.
  - intros H.
    destruct (H (GAME_MODES Intro) 80%Z Canvas.initial_dimensions) as [H1 _];
      [ lia | ].
    vm_compute in H1. discriminate.
Qed.

(** C6, amended.  The resize handler takes the container's width as it is:
    the width becomes [clientWidth] and the height [clientWidth] divided by
    the aspect ratio, with no lower bound.  The drawable width is strictly
    positive exactly when [clientWidth] exceeds 80; the drawable height
    exactly when it exceeds 80 in the introductory tier (1:1) and 106 in the
    other tiers (4:3).  Without a container element the dimensions stay. *)
Theorem divisors_positive_iff (config : GameConfig) (clientWidth : Z)
    (d : Canvas.Dimensions) :
  let d' := Canvas.updateSize config (Some clientWidth) d in
  (0 < Canvas.drawW d' <-> (80 < clientWidth)%Z) /\
  (0 < Canvas.drawH d' <->
   if level_eqb (id config) Intro
   then (80 < clientWidth)%Z else (106 < clientWidth)%Z) /\
  Canvas.updateSize config None d = d.
Proof.
  cbv zeta. split; [ | split; [ | reflexivity ] ].
  - unfold Canvas.drawW. rewrite CanvasFacts.updateSize_width.
    unfold Canvas.padding. rewrite Zlt_Qlt.
    change (inject_Z 80) with 80. split; intros; lra.
  - unfold Canvas.drawH. rewrite CanvasFacts.updateSize_height.
    unfold Canvas.padding.
    destruct (level_eqb (id config) Intro).
    + rewrite Zlt_Qlt. change (inject_Z 80) with 80. split; intros; lra.
    + assert (E : (106 < clientWidth)%Z <-> (320 < 3 * clientWidth)%Z) by lia.
      rewrite E, Zlt_Qlt, inject_Z_mult.
      change (inject_Z 320) with 320. change (inject_Z 3) with 3.
      split; intros; lra.
Qed.

(* ------------------------------------------------------------------ *)
(** ** The controller *)

Module AppFacts.

Import App.

Lemma level_eqb_eq (a b : DifficultyLevel) : level_eqb a b = true <-> a = b.
Proof. destruct a, b; simpl; split; congruence. Qed.

Lemma level_eqb_neq (a b : DifficultyLevel) :
  level_eqb a b = false <-> a <> b.
Proof. destruct a, b; simpl; split; congruence. Qed.

(** Every tier has a positive target step and ordered ranges. *)
Lemma modes_well_formed (m : DifficultyLevel) :
  let c := GAME_MODES m in
  0 < targetStep c /\
  fst (xRange c) <= snd (xRange c) /\
  fst (yRange c) <= snd (yRange c) /\
  0 <= tolerance c.
Proof. destruct m; cbv zeta; repeat split; vm_compute; congruence. Qed.

(** *** Target generation *)

Section RandomCoord.

Variables min max step random : Q.

Hypothesis step_positive : 0 < step.
Hypothesis ordered : min <= max.
Hypothesis random_range : 0 <= random < 1.

Let steps : Z := Qfloor ((max - min) / step).
Let randomStep : Z := Qfloor (random * (inject_Z steps + 1)).

Lemma steps_nonneg : (0 <= steps)%Z.
Proof.
  unfold steps. rewrite <- (Qfloor_Z 0). apply Qfloor_resp_le.
  change (inject_Z 0) with 0.
  apply Qle_shift_div_l; [ assumption | lra ].
Qed.

Lemma randomStep_range : (0 <= randomStep <= steps)%Z.
Proof.
  pose proof steps_nonneg as Hs.
  rewrite Zle_Qle in Hs. change (inject_Z 0) with 0 in Hs.
  unfold randomStep.
  set (v := random * (inject_Z steps + 1)).
  assert (Hv : 0 <= v < inject_Z steps + 1) by (unfold v; split; nra).
  destruct (JSFacts.floor_bounds v) as [Flo Fhi]. split.
  - rewrite <- (Qfloor_Z 0). apply Qfloor_resp_le.
    change (inject_Z 0) with 0. lra.
  - assert (L : (Qfloor v < steps + 1)%Z).
    { rewrite Zlt_Qlt, inject_Z_plus. change (inject_Z 1) with 1. lra. }
    lia.
Qed.

(** [getRandomCoord] returns [min + k * step] for an integer [k] between
    [0] and [floor((max - min) / step)]. *)
Lemma getRandomCoord_on_grid :
  getRandomCoord min max step random
    = Some (min + inject_Z randomStep * step) /\
  (0 <= randomStep <= Qfloor ((max - min) / step))%Z.
Proof.
  split; [ | exact randomStep_range ].
  unfold getRandomCoord, JS.bind, JS.ret.
  rewrite JSFacts.div_defined by lra. reflexivity.
Qed.

End RandomCoord.

(** Whatever the random draws, a tier's target is a finite point. *)
Lemma newTarget_defined (m : DifficultyLevel) (rx ry : Q) :
  exists t, newTarget (GAME_MODES m) rx ry = Some t.
Proof.
  unfold newTarget, getRandomCoord, JS.bind, JS.ret.
  destruct (modes_well_formed m) as (Hstep & _).
  rewrite !JSFacts.div_defined by lra. eauto.
Qed.

Lemma generateNewTarget_defined (m : DifficultyLevel) (rx ry : Q)
    (s : State) :
  exists t,
    newTarget (GAME_MODES m) rx ry = Some t /\
    generateNewTarget (GAME_MODES m) rx ry s = Some (setTarget t s).
Proof.
  destruct (newTarget_defined m rx ry) as [t Ht]. exists t.
  split; [ exact Ht | ].
  unfold generateNewTarget, JS.bind, JS.ret. now rewrite Ht.
Qed.

(** *** Every event yields a state *)

Lemma initial_wf (p : Progress) : timers_wf (initial p).
Proof. constructor. Qed.

Lemma modeEffect_defined (rx ry : Q) (s : State) :
  exists s',
    modeEffect rx ry s = Some s' /\ timers s' = timers s /\
    mode s' = mode s /\ progress s' = progress s.
Proof.
  destruct (generateNewTarget_defined (mode s) rx ry s) as (t & _ & Hgen).
  unfold modeEffect, config, JS.bind, JS.ret. rewrite Hgen.
  eexists. repeat split.
Qed.

Lemma handleCanvasClick_wf (clickPos : Point) (now : Z) (s : State) :
  timers_wf s -> timers_wf (handleCanvasClick clickPos now s).
Proof.
  unfold timers_wf, handleCanvasClick. intros H.
  destruct (JS.sqrt_leb _ _); cbn; [ | exact H ].
  apply Forall_app. split; [ exact H | ].
  constructor; [ | constructor ]. now exists (mode s).
Qed.

Lemma fireTimeout_wf (rx ry : Q) (s : State) :
  timers_wf s ->
  exists s', fireTimeout rx ry s = Some s' /\ timers_wf s'.
Proof.
  unfold timers_wf, fireTimeout. intros H.
  destruct (timers s) as [ | t ts ] eqn:E.
  - exists s. split; [ reflexivity | now rewrite E ].
  - inversion H as [ | ? ? [m Hm] Hts ]; subst.
    destruct (generateNewTarget_defined m rx ry (dropTimer s))
      as (t' & _ & Hgen).
    rewrite Hm. unfold JS.bind, JS.ret. rewrite Hgen.
    eexists. split; [ reflexivity | ].
    cbn. now rewrite E.
Qed.

Lemma step_wf (s : State) (e : Event) :
  timers_wf s -> exists s', step s e = Some s' /\ timers_wf s'.
Proof.
  intros H. destruct e as [rx ry | p now | p | m rx ry | rx ry]; cbn [step].
  - destruct (modeEffect_defined rx ry s) as (s' & E & Ht & _).
    exists s'. split; [ exact E | ]. unfold timers_wf. now rewrite Ht.
  - eexists. split; [ reflexivity | now apply handleCanvasClick_wf ].
  - eexists. split; [ reflexivity | exact H ].
  - unfold clickModeButton.
    destruct (isLocked _); [ now exists s | ].
    destruct (level_eqb m (mode s)); [ now exists s | ].
    destruct (modeEffect_defined rx ry (setMode m s)) as (s' & E & Ht & _).
    exists s'. split; [ exact E | ]. unfold timers_wf. now rewrite Ht.
  - now apply fireTimeout_wf.
Qed.

(** From the initial state every sequence of events runs to a state: no
    division in the controller ever has a zero divisor. *)
Lemma run_defined (es : list Event) (s : State) :
  timers_wf s -> exists s', run s es = Some s' /\ timers_wf s'.
Proof.
  revert s. induction es as [ | e es IH ]; intros s H.
  - now exists s.
  - destruct (step_wf s e H) as (s1 & E1 & H1).
    destruct (IH s1 H1) as (s' & E & H').
    exists s'. split; [ | exact H' ].
    cbn [run]. unfold JS.bind. now rewrite E1.
Qed.

(** The progress counts never go down. *)
Lemma step_progress_monotone (s s' : State) (e : Event)
    (m : DifficultyLevel) :
  step s e = Some s' -> progress s m <= progress s' m.
Proof.
  destruct e as [rx ry | p now | p | m0 rx ry | rx ry]; cbn [step].
  - destruct (modeEffect_defined rx ry s) as (s1 & E & _ & _ & Hp).
    rewrite E. intros [= <-]. rewrite Hp. lra.
  - intros [= <-]. unfold handleCanvasClick.
    destruct (JS.sqrt_leb _ _); cbn; [ | lra ].
    unfold spread_set. destruct (level_eqb m (mode s)) eqn:Em; [ | lra ].
    apply level_eqb_eq in Em. subst m.
    rewrite JSFacts.or_else_zero. lra.
  - intros [= <-]. cbn. lra.
  - unfold clickModeButton.
    destruct (isLocked _); [ intros [= <-]; lra | ].
    destruct (level_eqb m0 (mode s)); [ intros [= <-]; lra | ].
    destruct (modeEffect_defined rx ry (setMode m0 s)) as (s1 & E & _ & _ & Hp).
    rewrite E. intros [= <-]. rewrite Hp. cbn. lra.
  - unfold fireTimeout. destruct (timers s) as [ | t ts ].
    + intros [= <-]. lra.
    + unfold generateNewTarget, JS.bind, JS.ret.
      destruct (newTarget _ _ _); [ | discriminate ].
      intros [= <-]. cbn. lra.
Qed.

End AppFacts.

(* ------------------------------------------------------------------ *)
(** ** Claims about the controller *)

(** C4.  For every tier and every pair of random draws in [0, 1), the
    generated target has abscissa [xRange[0] + kx * targetStep] and ordinate
    [yRange[0] + ky * targetStep] for integers [kx] and [ky] between 0 and
    the number of steps that fit in the respective range, and [ky] is also
    at most the number of steps of the x range.  In the Advanced tier both
    coordinates are integers between -10 and 10, and some draws give the
    target (0, 0). *)
Theorem generated_target_on_grid (m : DifficultyLevel) (rx ry : Q)
    (s : App.State) :
  0 <= rx < 1 -> 0 <= ry < 1 ->
  let c := GAME_MODES m in
  (exists s' kx ky,
     App.generateNewTarget c rx ry s = Some s' /\
     x (App.target s') == fst (xRange c) + inject_Z kx * targetStep c /\
     (0 <= kx <= Qfloor ((snd (xRange c) - fst (xRange c)) / targetStep c))%Z /\
     y (App.target s') == fst (yRange c) + inject_Z ky * targetStep c /\
     (0 <= ky <= Qfloor ((snd (yRange c) - fst (yRange c)) / targetStep c))%Z /\
     (ky <= Qfloor ((snd (xRange c) - fst (xRange c)) / targetStep c))%Z) /\
  (exists s' ix iy,
     App.generateNewTarget (GAME_MODES Advanced) rx ry s = Some s' /\
     x (App.target s') == inject_Z ix /\ (-10 <= ix <= 10)%Z /\
     y (App.target s') == inject_Z iy /\ (-10 <= iy <= 10)%Z) /\
  (exists rx0 ry0 s',
     0 <= rx0 < 1 /\ 0 <= ry0 < 1 /\
     App.generateNewTarget (GAME_MODES Advanced) rx0 ry0 s = Some s' /\
     App.target s' = {| x := 0; y := 0 |}).
Proof.
  intros Hrx Hry c.
  assert (grid : forall m0,
    exists kx ky,
      App.newTarget (GAME_MODES m0) rx ry
        = Some {| x := fst (xRange (GAME_MODES m0))
                       + inject_Z kx * targetStep (GAME_MODES m0);
                  y := fst (yRange (GAME_MODES m0))
                       + inject_Z ky * targetStep (GAME_MODES m0) |} /\
      (0 <= kx <= Qfloor ((snd (xRange (GAME_MODES m0))
                           - fst (xRange (GAME_MODES m0)))
                          / targetStep (GAME_MODES m0)))%Z /\
      (0 <= ky <= Qfloor ((snd (yRange (GAME_MODES m0))
                           - fst (yRange (GAME_MODES m0)))
                          / targetStep (GAME_MODES m0)))%Z).
  { intros m0.
    destruct (AppFacts.modes_well_formed m0) as (Hstep & Hx & Hy & _).
    destruct (AppFacts.getRandomCoord_on_grid _ _ _ rx Hstep Hx Hrx) as [Ex Rx].
    destruct (AppFacts.getRandomCoord_on_grid _ _ _ ry Hstep Hy Hry) as [Ey Ry].
    do 2 eexists. split; [ | split; [ exact Rx | exact Ry ] ].
    unfold App.newTarget, JS.bind, JS.ret. now rewrite Ex, Ey. }
  split; [ | split ].
  - destruct (grid m) as (kx & ky & E & Rx & Ry).
    exists (App.setTarget
              {| x := fst (xRange c) + inject_Z kx * targetStep c;
                 y := fst (yRange c) + inject_Z ky * targetStep c |} s),
           kx, ky.
    split; [ unfold App.generateNewTarget, JS.bind, JS.ret; fold c in E;
             now rewrite E | ].
    cbn [App.setTarget App.target x y].
    split; [ reflexivity | ]. split; [ exact Rx | ].
    split; [ reflexivity | ]. split; [ exact Ry | ].
    apply Z.le_trans with (1 := proj2 Ry).
    subst c. destruct m; vm_compute; congruence.
  - destruct (grid Advanced) as (kx & ky & E & Rx & Ry).
    change (Qfloor _) with 20%Z in Rx, Ry.
    eexists. exists (-10 + kx)%Z, (-10 + ky)%Z.
    split; [ unfold App.generateNewTarget, JS.bind, JS.ret; now rewrite E | ].
    cbn [App.setTarget App.target x y GAME_MODES xRange yRange targetStep fst].
    rewrite !inject_Z_plus. change (inject_Z (-10)) with (-10).
    repeat split; try lia; ring.
  - exists (1 # 2), (1 # 2). eexists.
    split; [ lra | ]. split; [ lra | ].
    split; reflexivity.
Qed.

(** In the last tier, with the draws 1/3 and 3/4. *)
Lemma generated_target_on_grid_witness :
  0 <= 1 # 3 < 1 /\ 0 <= 3 # 4 < 1 /\
  exists s' kx ky,
    App.generateNewTarget (GAME_MODES Hell) (1 # 3) (3 # 4)
      (App.initial App.zero_progress) = Some s' /\
    x (App.target s') == -240 + inject_Z kx * 10 /\
    (0 <= kx <= 48)%Z /\
    y (App.target s') == -180 + inject_Z ky * 10 /\
    (0 <= ky <= 36)%Z.
Proof.
  assert (H1 : 0 <= 1 # 3 < 1) by (split; [ discriminate | reflexivity ]).
  assert (H2 : 0 <= 3 # 4 < 1) by (split; [ discriminate | reflexivity ]).
  split; [ exact H1 | split; [ exact H2 | ] ].
  destruct (generated_target_on_grid Hell (1 # 3) (3 # 4)
              (App.initial App.zero_progress) H1 H2)
    as [(s' & kx & ky & E & Hx & Rx & Hy & Ry & _) _].
  exists s', kx, ky. repeat split; try assumption; apply Rx || apply Ry.
Defined.

(** C5.  Whatever the progress mapping, the introductory tier is unlocked,
    and each later tier is locked exactly when the count of the tier just
    before it is below 20: a count of 19 locks, a count of 20 unlocks.  The
    button of a locked tier leaves the state as it is. *)
Theorem unlock_gating (p : App.Progress) :
  UNLOCK_THRESHOLD = 20 /\
  App.isLocked (App.getLockStatus p Intro) = false /\
  (App.isLocked (App.getLockStatus p Advanced) = true <->
   p Intro < UNLOCK_THRESHOLD) /\
  (App.isLocked (App.getLockStatus p Challenge) = true <->
   p Advanced < UNLOCK_THRESHOLD) /\
  (App.isLocked (App.getLockStatus p Hell) = true <->
   p Challenge < UNLOCK_THRESHOLD) /\
  (let locked q m := App.isLocked (App.getLockStatus q m) in
   locked (App.spread_set p Intro 19) Advanced = true /\
   locked (App.spread_set p Intro 20) Advanced = false /\
   locked (App.spread_set p Advanced 19) Challenge = true /\
   locked (App.spread_set p Advanced 20) Challenge = false /\
   locked (App.spread_set p Challenge 19) Hell = true /\
   locked (App.spread_set p Challenge 20) Hell = false) /\
  (forall m rx ry s,
     App.progress s = p ->
     App.isLocked (App.getLockStatus p m) = true ->
     App.clickModeButton m rx ry s = Some s).
Proof.
  do 2 (split; [ reflexivity | ]).
  do 3 (split; [ apply JSFacts.ltb_spec | ]).
  split; [ repeat split | ].
  intros m rx ry s <- Hlocked.
  unfold App.clickModeButton. now rewrite Hlocked.
Qed.

(** On a fresh game the Advanced tier is locked and its button does
    nothing. *)
Lemma unlock_gating_witness :
  let s := App.initial App.zero_progress in
  App.isLocked (App.getLockStatus App.zero_progress Advanced) = true /\
  App.clickModeButton Advanced (1 # 2) (1 # 2) s = Some s.
Proof.
  cbv zeta.
  assert (H : App.isLocked (App.getLockStatus App.zero_progress Advanced)
              = true) by reflexivity.
  split; [ exact H | ].
  destruct (unlock_gating App.zero_progress)
    as (_ & _ & _ & _ & _ & _ & Hreject).
  apply Hreject; [ reflexivity | exact H ].
Defined.

(** C9.  A switch to another, unlocked tier clears [lastResult], resets the
    session score to 0, sets a target generated for the new tier, and
    resets the feedback text; the progress mapping, like everything else in
    the state, is left as it was. *)
Theorem mode_switch_resets (m : DifficultyLevel) (rx ry : Q) (s : App.State) :
  App.isLocked (App.getLockStatus (App.progress s) m) = false ->
  m <> App.mode s ->
  exists t,
    App.newTarget (GAME_MODES m) rx ry = Some t /\
    App.clickModeButton m rx ry s =
    Some {| App.progress := App.progress s;
            App.mode := m;
            App.target := t;
            App.hoverPos := App.hoverPos s;
            App.score := 0;
            App.feedback := [App.Lit "新游戏开始！请找到目标位置。"];
            App.lastResult := None;
            App.timers := App.timers s;
            App.effects := App.effects s |}.
Proof.
  intros Hopen Hother.
  destruct (AppFacts.generateNewTarget_defined m rx ry (App.setMode m s))
    as (t & Ht & Hgen).
  exists t. split; [ exact Ht | ].
  unfold App.clickModeButton. rewrite Hopen.
  apply AppFacts.level_eqb_neq in Hother. rewrite Hother.
  unfold App.modeEffect, JS.bind, JS.ret.
  change (App.config (App.setMode m s)) with (GAME_MODES m).
  now rewrite Hgen.
Qed.

(** With 20 completions of the introductory tier the Advanced tier is open,
    and switching to it resets the session. *)
Lemma mode_switch_resets_witness :
  App.isLocked (App.getLockStatus (App.progress intro_done) Advanced) = false /\
  Advanced <> App.mode intro_done /\
  exists s',
    App.clickModeButton Advanced (1 # 2) (1 # 4) intro_done = Some s' /\
    App.mode s' = Advanced /\
    App.score s' = 0 /\
    App.lastResult s' = None /\
    App.progress s' = App.progress intro_done.
Proof.
  assert (H1 : App.isLocked
                 (App.getLockStatus (App.progress intro_done) Advanced) = false)
    by reflexivity.
  assert (H2 : Advanced <> App.mode intro_done) by discriminate.
  split; [ exact H1 | split; [ exact H2 | ] ].
  destruct (mode_switch_resets Advanced (1 # 2) (1 # 4) intro_done H1 H2)
    as (t & _ & E).
  eexists. split; [ exact E | ]. repeat split.
Defined.

(** C3.  A click is a hit exactly when its Euclidean distance to the target
    is at most the tier's tolerance.  On a hit the session score and the
    tier's progress count go up by one (the other counts stay), [lastResult]
    becomes a success placed at the target, the celebration is triggered,
    and a callback is scheduled 1500 ms ahead which, when it runs, sets a
    new target and clears the result.  On a miss [lastResult] becomes a
    failure placed at the click, the feedback text carries the rounded
    click coordinates, and score, progress, target and pending callbacks
    stay as they were. *)
Theorem click_evaluation (clickPos : Point) (now : Z) (s : App.State)
    (rx ry : Q) :
  let dx := x clickPos - x (App.target s) in
  let dy := y clickPos - y (App.target s) in
  let distance := sqrt (Q2R (dx * dx + dy * dy)) in
  let s' := App.handleCanvasClick clickPos now s in
  ((distance <= Q2R (tolerance (App.config s)))%R /\
   App.score s' = App.score s + 1 /\
   App.progress s' (App.mode s) == App.progress s (App.mode s) + 1 /\
   (forall m, m <> App.mode s -> App.progress s' m = App.progress s m) /\
   App.lastResult s' =
     Some {| App.success := true; App.clickPos := App.target s;
             App.timestamp := now |} /\
   App.feedback s' = [App.Lit "太棒了！找到啦！🎉"] /\
   App.effects s' = App.effects s ++ [App.confetti 100 70 (6 # 10)] /\
   App.mode s' = App.mode s /\
   App.target s' = App.target s /\
   App.timers s' =
     App.timers s
     ++ [{| App.delay := 1500; App.closure_config := App.config s |}] /\
   exists t,
     App.newTarget (App.config s) rx ry = Some t /\
     forall p m t0 h sc f lr ts ef,
       App.fireTimeout rx ry
         (App.mkState p m t0 h sc f lr
            ({| App.delay := 1500; App.closure_config := App.config s |} :: ts)
            ef)
       = Some (App.mkState p m t h sc [App.Lit "请寻找下一个坐标！"] None ts ef))
  \/
  ((distance > Q2R (tolerance (App.config s)))%R /\
   App.lastResult s' =
     Some {| App.success := false; App.clickPos := clickPos;
             App.timestamp := now |} /\
   App.feedback s' =
     [App.Lit "哎呀偏了！你点到了 ("; App.Num (JS.Math_round (x clickPos));
      App.Lit ", "; App.Num (JS.Math_round (y clickPos)); App.Lit ") 😅"] /\
   App.progress s' = App.progress s /\
   App.score s' = App.score s /\
   App.mode s' = App.mode s /\
   App.target s' = App.target s /\
   App.timers s' = App.timers s /\
   App.effects s' = App.effects s).
Proof.
  intros dx dy distance s'.
  pose proof (JSFacts.sqrt_leb_spec (dx * dx + dy * dy)
                (tolerance (App.config s))
                (JSFacts.sum_squares_nonneg dx dy)) as Hspec.
  fold distance in Hspec.
  unfold s', App.handleCanvasClick. fold dx dy.
  destruct (JS.sqrt_leb (dx * dx + dy * dy) (tolerance (App.config s))) eqn:E.
  - left. split; [ now apply Hspec | ].
    cbn [App.score App.progress App.lastResult App.feedback App.effects
         App.mode App.target App.timers App.setTimeout App.perform
         App.setLastResult App.setFeedback App.setProgress App.setScore].
    split; [ reflexivity | ].
    split.
    { unfold App.spread_set.
      replace (level_eqb (App.mode s) (App.mode s)) with true
        by (symmetry; now apply AppFacts.level_eqb_eq).
      now rewrite JSFacts.or_else_zero. }
    split.
    { intros m Hm. unfold App.spread_set.
      apply AppFacts.level_eqb_neq in Hm. now rewrite Hm. }
    do 6 (split; [ reflexivity | ]).
    destruct (AppFacts.newTarget_defined (App.mode s) rx ry) as [t Ht].
    exists t. split; [ exact Ht | ].
    intros p m t0 h sc f lr ts ef.
    unfold App.fireTimeout, App.generateNewTarget, JS.bind, JS.ret.
    cbn [App.timers App.closure_config].
    unfold App.config in Ht |- *. now rewrite Ht.
  - right. split.
    + apply Rnot_le_gt. intros H. apply Hspec in H. discriminate.
    + cbn. repeat split.
Qed.

(** C8, as stated, fails.  A player one hit short of unlocking the Advanced
    tier hits the target in the introductory tier, switches to the Advanced
    tier within the delay and misses there; the callback scheduled in the
    introductory tier then runs all the same: it replaces the Advanced
    target (-10, -10) by (10, 10), drawn from the introductory range, and
    clears the result of the miss. *)
Lemma stale_callback_runs_after_mode_switch :
  let start := App.initial (App.spread_set App.zero_progress Intro 19) in
  let miss := {| App.success := false; App.clickPos := {| x := 5; y := 5 |};
                 App.timestamp := 1 |} in
  exists s4 s5,
    App.run start
      [App.Mount 0 0;
       App.CanvasClick {| x := 0; y := 0 |} 0;
       App.ModeButton Advanced 0 0;
       App.CanvasClick {| x := 5; y := 5 |} 1] = Some s4 /\
    App.mode s4 = Advanced /\
    App.target s4 = {| x := -10; y := -10 |} /\
    App.lastResult s4 = Some miss /\
    App.timers s4 =
      [{| App.delay := 1500; App.closure_config := GAME_MODES Intro |}] /\
    App.step s4 (App.Timeout (99 # 100) (99 # 100)) = Some s5 /\
    App.mode s5 = Advanced /\
    App.target s5 = {| x := 10; y := 10 |} /\
    App.lastResult s5 = None.
Proof.
  cbv zeta. do 2 eexists.
  split; [ vm_compute; reflexivity | ].
  do 4 (split; [ reflexivity | ]).
  split; [ vm_compute; reflexivity | ].
  repeat split.
Qed.

(** C8, amended.  A mode switch does not cancel a pending callback: the
    button for a tier always yields a state, whose pending callbacks are
    those from before.  When the oldest pending callback runs, in whatever
    tier the game then is, it sets a target generated for the tier it was
    scheduled in, clears [lastResult] and sets the feedback text; the tier,
    the score and the progress stay. *)
Theorem pending_callback_survives_mode_switch (m m0 : DifficultyLevel)
    (rx ry : Q) (s : App.State) :
  (exists s',
     App.clickModeButton m rx ry s = Some s' /\
     App.timers s' = App.timers s) /\
  exists t,
    App.newTarget (GAME_MODES m0) rx ry = Some t /\
    forall p m1 t0 h sc f lr ts ef,
      App.fireTimeout rx ry
        (App.mkState p m1 t0 h sc f lr
           ({| App.delay := 1500; App.closure_config := GAME_MODES m0 |} :: ts)
           ef)
      = Some (App.mkState p m1 t h sc [App.Lit "请寻找下一个坐标！"] None ts ef).
Proof.
  split.
  - unfold App.clickModeButton.
    destruct (App.isLocked _); [ now exists s | ].
    destruct (level_eqb m (App.mode s)); [ now exists s | ].
    destruct (AppFacts.generateNewTarget_defined m rx ry (App.setMode m s))
      as (t & _ & Hgen).
    unfold App.modeEffect, JS.bind, JS.ret.
    change (App.config (App.setMode m s)) with (GAME_MODES m).
    rewrite Hgen. eexists. split; reflexivity.
  - destruct (AppFacts.newTarget_defined m0 rx ry) as [t Ht].
    exists t. split; [ exact Ht | ].
    intros p m1 t0 h sc f lr ts ef.
    unfold App.fireTimeout, App.generateNewTarget, JS.bind, JS.ret.
    cbn [App.timers App.closure_config]. now rewrite Ht.
Qed.

(* ------------------------------------------------------------------ *)
(** ** Claims about the progress loader *)

(** C7, as stated, fails.  The stored text [{}] is valid JSON, so it is
    returned as parsed: the loaded value maps no difficulty id to anything.
    It is not the all-zero mapping, and not a mapping of each id to a
    non-negative integer. *)
Lemma empty_object_is_loaded_as_is :
  App.progress_initializer (Some "{}"%string) = (JSON.JObject [], []) /\
  App.is_all_zero (JSON.JObject []) = false /\
  App.is_count_mapping (JSON.JObject []) = false /\
  App.as_progress (JSON.JObject []) = None /\
  ~ (forall saved,
       App.is_count_mapping (fst (App.progress_initializer saved)) = true).
Proof.
  repeat split.
  intros H. specialize (H (Some "{}"%string)). discriminate.
Qed.

(** C7, amended.  When nothing is stored, or the stored text is not valid
    JSON (the empty text included), the initializer returns the all-zero
    mapping and throws nothing; at most it writes one line to the console.
    A stored text that is valid JSON is returned as parsed, whatever its
    shape. *)
Theorem progress_initializer_fallback (saved : option string) :
  saved = None \/ (exists text, saved = Some text /\ JSON.parse text = None) ->
  fst (App.progress_initializer saved) = App.default_progress /\
  (snd (App.progress_initializer saved) = [] \/
   snd (App.progress_initializer saved)
     = [App.console_error "Failed to parse progress"]) /\
  App.is_all_zero App.default_progress = true /\
  App.is_count_mapping App.default_progress = true /\
  (exists p, App.as_progress App.default_progress = Some p /\
             forall m, p m = App.zero_progress m) /\
  (forall text v,
     JSON.parse text = Some v ->
     App.progress_initializer (Some text) = (v, [])).
Proof.
  intros Hsaved.
  assert (Hfall : fst (App.progress_initializer saved) = App.default_progress /\
                  (snd (App.progress_initializer saved) = [] \/
                   snd (App.progress_initializer saved)
                     = [App.console_error "Failed to parse progress"])).
  { destruct Hsaved as [-> | (text & -> & Hparse)].
    - split; [ reflexivity | now left ].
    - unfold App.progress_initializer. rewrite Hparse.
      destruct (String.eqb text ""); split; auto. }
  destruct Hfall as [H1 H2].
  split; [ exact H1 | ]. split; [ exact H2 | ].
  do 2 (split; [ reflexivity | ]).
  split.
  - eexists. split; [ reflexivity | ]. intros m; destruct m; reflexivity.
  - intros text v Hparse. unfold App.progress_initializer.
    destruct (String.eqb text "") eqn:E.
    + apply String.eqb_eq in E. subst text. discriminate.
    + now rewrite Hparse.
Qed.

(** A stored text that is not JSON. *)
Lemma progress_initializer_fallback_witness :
  JSON.parse "not json" = None /\
  fst (App.progress_initializer (Some "not json"%string))
    = App.default_progress.
Proof.
  assert (Hparse : JSON.parse "not json" = None) by reflexivity.
  split; [ exact Hparse | ].
  apply (progress_initializer_fallback (Some "not json"%string)).
  right. exists "not json"%string. split; [ reflexivity | exact Hparse ].
Defined.

(* ================================================================== *)
(** * Further properties of the controller *)

Module Invariants.

Import App.

(** The lock of a tier only opens as counts grow. *)
Lemma lock_stays_open (p p' : Progress) (m : DifficultyLevel) :
  (forall k, p k <= p' k) ->
  isLocked (getLockStatus p m) = false ->
  isLocked (getLockStatus p' m) = false.
Proof.
  intros Hle. destruct m; cbn [getLockStatus isLocked]; [ reflexivity | | | ];
    intros H; apply not_true_iff_false; apply not_true_iff_false in H;
    intros L; apply H; apply JSFacts.ltb_spec; apply JSFacts.ltb_spec in L;
    [ pose proof (Hle Intro) | pose proof (Hle Advanced)
    | pose proof (Hle Challenge) ]; lra.
Qed.

Lemma run_app (s : State) (es es' : list Event) :
  run s (es ++ es') = (s1 <- run s es ;; run s1 es').
Proof.
  revert s. induction es as [ | e es IH ]; intros s; [ reflexivity | ].
  cbn [app run]. unfold JS.bind at 1 3.
  destruct (step s e) as [s1 | ]; [ apply IH | reflexivity ].
Qed.

(** An invariant of every step is an invariant of every run. *)
Lemma run_invariant (I : State -> Prop) :
  (forall s e s', I s -> step s e = Some s' -> I s') ->
  forall es s s', I s -> run s es = Some s' -> I s'.
Proof.
  intros Hstep. induction es as [ | e es IH ]; intros s s' Hs.
  - now intros [= <-].
  - cbn [run]. unfold JS.bind.
    destruct (step s e) as [s1 | ] eqn:E; [ | discriminate ].
    apply IH. now apply (Hstep s e).
Qed.

(** What an event can do to the tier and to the counts. *)
Lemma step_mode (s s' : State) (e : Event) :
  step s e = Some s' ->
  mode s' = mode s \/
  (isLocked (getLockStatus (progress s) (mode s')) = false /\
   progress s' = progress s /\ score s' = 0).
Proof.
  destruct e as [rx ry | p now | p | m rx ry | rx ry]; cbn [step].
  - destruct (AppFacts.modeEffect_defined rx ry s) as (s1 & E & _ & Hm & _).
    rewrite E. intros [= <-]. now left.
  - intros [= <-]. left. unfold handleCanvasClick.
    now destruct (JS.sqrt_leb _ _).
  - intros [= <-]. now left.
  - unfold clickModeButton.
    destruct (isLocked (getLockStatus (progress s) m)) eqn:L;
      [ intros [= <-]; now left | ].
    destruct (level_eqb m (mode s)); [ intros [= <-]; now left | ].
    unfold modeEffect, generateNewTarget, JS.bind, JS.ret.
    destruct (newTarget _ _ _); [ | discriminate ].
    intros [= <-]. right. cbn. now rewrite L.
  - unfold fireTimeout. destruct (timers s) as [ | t ts ].
    + intros [= <-]. now left.
    + unfold generateNewTarget, JS.bind, JS.ret.
      destruct (newTarget _ _ _); [ | discriminate ].
      intros [= <-]. now left.
Qed.

(** The state after a click that is a hit. *)
Lemma hit_state (clickPos : Point) (now : Z) (s : State) :
  JS.sqrt_leb
    ((x clickPos - x (target s)) * (x clickPos - x (target s))
     + (y clickPos - y (target s)) * (y clickPos - y (target s)))
    (tolerance (config s)) = true ->
  handleCanvasClick clickPos now s =
  mkState
    (spread_set (progress s) (mode s)
       (JS.or_else (progress s (mode s)) 0 + 1))
    (mode s) (target s) (hoverPos s) (score s + 1)
    [Lit "太棒了！找到啦！🎉"]
    (Some {| success := true; clickPos := target s; timestamp := now |})
    (timers s ++ [{| delay := 1500; closure_config := config s |}])
    (effects s ++ [confetti 100 70 (6 # 10)]).
Proof.
  intros H. unfold handleCanvasClick. now rewrite H.
Qed.

(** An event leaves the counts alone or records one hit in the tier being
    played. *)
Lemma step_progress_cases (s s' : State) (e : Event) :
  step s e = Some s' ->
  progress s' = progress s \/
  progress s' =
  spread_set (progress s) (mode s) (JS.or_else (progress s (mode s)) 0 + 1).
Proof.
  destruct e as [rx ry | p now | p | m rx ry | rx ry]; cbn [step].
  - destruct (AppFacts.modeEffect_defined rx ry s) as (s1 & E & _ & _ & Hp).
    rewrite E. intros [= <-]. now left.
  - intros [= <-]. unfold handleCanvasClick.
    destruct (JS.sqrt_leb _ _); [ now right | now left ].
  - intros [= <-]. now left.
  - unfold clickModeButton.
    destruct (isLocked _); [ intros [= <-]; now left | ].
    destruct (level_eqb m (mode s)); [ intros [= <-]; now left | ].
    destruct (AppFacts.modeEffect_defined rx ry (setMode m s))
      as (s1 & E & _ & _ & Hp).
    rewrite E. intros [= <-]. now left.
  - unfold fireTimeout. destruct (timers s) as [ | t ts ].
    + intros [= <-]. now left.
    + unfold generateNewTarget, JS.bind, JS.ret.
      destruct (newTarget _ _ _); [ | discriminate ].
      intros [= <-]. now left.
Qed.

(** What the callback of the oldest pending timer leaves unchanged. *)
Lemma fireTimeout_frame (rx ry : Q) (s s' : State) :
  fireTimeout rx ry s = Some s' ->
  timers s' = tl (timers s) /\
  (timers s <> [] -> lastResult s' = None) /\
  (timers s = [] -> lastResult s' = lastResult s) /\
  progress s' = progress s /\ score s' = score s /\ mode s' = mode s.
Proof.
  unfold fireTimeout. destruct (timers s) as [ | t ts ] eqn:E.
  - intros [= <-]. rewrite E. repeat split; congruence.
  - unfold generateNewTarget, JS.bind, JS.ret.
    destruct (newTarget _ _ _); [ | discriminate ].
    intros [= <-]. cbn. rewrite E. repeat split; congruence.
Qed.

End Invariants.

(** X1.  In every state reached from the initial one, the tier being played
    is unlocked. *)
Theorem current_tier_is_unlocked (p : App.Progress) (es : list App.Event)
    (s : App.State) :
  App.run (App.initial p) es = Some s ->
  App.isLocked (App.getLockStatus (App.progress s) (App.mode s)) = false.
Proof.
  apply (Invariants.run_invariant
           (fun s => App.isLocked
                       (App.getLockStatus (App.progress s) (App.mode s))
                     = false)); [ | reflexivity ].
  clear. intros s e s' Hs E.
  assert (Hmono : forall k, App.progress s k <= App.progress s' k)
    by (intros k; now apply (AppFacts.step_progress_monotone s s' e)).
  destruct (Invariants.step_mode s s' e E) as [-> | (L & _ & _)].
  - now apply (Invariants.lock_stays_open (App.progress s)).
  - now apply (Invariants.lock_stays_open (App.progress s)).
Qed.

Lemma current_tier_is_unlocked_witness :
  exists s,
    App.run intro_done
      [App.Mount 0 0; App.ModeButton Advanced 0 0;
       App.ModeButton Hell 0 0] = Some s /\
    App.mode s = Advanced /\
    App.isLocked (App.getLockStatus (App.progress s) (App.mode s)) = false.
Proof.
  eexists. split; [ vm_compute; reflexivity | ].
  split; [ reflexivity | ].
  apply (current_tier_is_unlocked
           (App.spread_set App.zero_progress Intro 20)
           [App.Mount 0 0; App.ModeButton Advanced 0 0;
            App.ModeButton Hell 0 0]).
  vm_compute; reflexivity.
Defined.

(** X2.  No event lowers a completion count: along every run each tier's
    count is at least what it was. *)
Theorem progress_never_decreases (es : list App.Event) (s s' : App.State)
    (m : DifficultyLevel) :
  App.run s es = Some s' -> App.progress s m <= App.progress s' m.
Proof.
  revert s. induction es as [ | e es IH ]; intros s.
  - intros [= <-]. lra.
  - cbn [App.run]. unfold JS.bind.
    destruct (App.step s e) as [s1 | ] eqn:E; [ | discriminate ].
    intros H. apply IH in H.
    pose proof (AppFacts.step_progress_monotone s s1 e m E). lra.
Qed.

Lemma progress_never_decreases_witness :
  exists s',
    App.run intro_done
      [App.Mount 0 0; App.CanvasClick {| x := 0; y := 0 |} 0;
       App.ModeButton Advanced 0 0; App.Timeout 0 0] = Some s' /\
    App.progress intro_done Intro <= App.progress s' Intro.
Proof.
  eexists. split; [ vm_compute; reflexivity | ].
  apply (progress_never_decreases
           [App.Mount 0 0; App.CanvasClick {| x := 0; y := 0 |} 0;
            App.ModeButton Advanced 0 0; App.Timeout 0 0]).
  vm_compute; reflexivity.
Defined.

(** X3.  The session score is never negative and never exceeds what the
    count of the tier being played has gained since the app started. *)
Theorem score_bounded_by_progress (p : App.Progress) (es : list App.Event)
    (s : App.State) :
  App.run (App.initial p) es = Some s ->
  0 <= App.score s /\
  App.score s + p (App.mode s) <= App.progress s (App.mode s).
Proof.
  intros Hrun.
  enough (H : (forall k, p k <= App.progress s k) /\
              0 <= App.score s /\
              App.score s + p (App.mode s) <= App.progress s (App.mode s))
    by apply H.
  revert Hrun.
  apply (Invariants.run_invariant
           (fun s => (forall k, p k <= App.progress s k) /\
                     0 <= App.score s /\
                     App.score s + p (App.mode s)
                     <= App.progress s (App.mode s))).
  2:{ cbn. repeat split; try lra. intros k. lra. }
  clear. intros s e s' (Hp & H0 & Hs) E.
  assert (Hmono : forall k, p k <= App.progress s' k).
  { intros k. pose proof (AppFacts.step_progress_monotone s s' e k E).
    pose proof (Hp k). lra. }
  split; [ exact Hmono | ].
  destruct e as [rx ry | c now | c | m rx ry | rx ry]; cbn [App.step] in E.
  - unfold App.modeEffect, App.generateNewTarget, JS.bind, JS.ret in E.
    destruct (App.newTarget _ _ _); [ | discriminate ].
    injection E as <-. cbn. pose proof (Hp (App.mode s)). split; lra.
  - injection E as <-. unfold App.handleCanvasClick.
    destruct (JS.sqrt_leb _ _); cbn; [ | split; lra ].
    unfold App.spread_set.
    replace (level_eqb (App.mode s) (App.mode s)) with true
      by (symmetry; now apply AppFacts.level_eqb_eq).
    rewrite JSFacts.or_else_zero. split; lra.
  - injection E as <-. cbn. split; lra.
  - unfold App.clickModeButton in E.
    destruct (App.isLocked _); [ injection E as <-; split; lra | ].
    destruct (level_eqb m (App.mode s)); [ injection E as <-; split; lra | ].
    unfold App.modeEffect, App.generateNewTarget, JS.bind, JS.ret in E.
    destruct (App.newTarget _ _ _); [ | discriminate ].
    injection E as <-. cbn. pose proof (Hp m). split; lra.
  - unfold App.fireTimeout in E. destruct (App.timers s) as [ | t ts ].
    + injection E as <-. split; lra.
    + unfold App.generateNewTarget, JS.bind, JS.ret in E.
      destruct (App.newTarget _ _ _); [ | discriminate ].
      injection E as <-. cbn. split; lra.
Qed.

Lemma score_bounded_by_progress_witness :
  exists s,
    App.run (App.initial App.zero_progress)
      [App.Mount 0 0; App.CanvasClick {| x := 0; y := 0 |} 0;
       App.CanvasClick {| x := 4; y := 4 |} 1] = Some s /\
    App.score s == 1 /\
    App.score s + App.zero_progress (App.mode s)
    <= App.progress s (App.mode s).
Proof.
  eexists. split; [ vm_compute; reflexivity | ].
  split; [ reflexivity | ].
  apply (score_bounded_by_progress App.zero_progress
           [App.Mount 0 0; App.CanvasClick {| x := 0; y := 0 |} 0;
            App.CanvasClick {| x := 4; y := 4 |} 1]).
  vm_compute; reflexivity.
Defined.

(** X4.  Tiers are completed in order.  If at the start no tier has a
    positive count unless the tier before it has reached the threshold,
    the same holds in every state reached: a game started from all-zero
    progress never records a hit in a tier whose predecessor has fewer than
    20 hits. *)
Theorem tiers_completed_in_order (p : App.Progress) (es : list App.Event)
    (s : App.State) :
  (0 < p Advanced -> UNLOCK_THRESHOLD <= p Intro) ->
  (0 < p Challenge -> UNLOCK_THRESHOLD <= p Advanced) ->
  (0 < p Hell -> UNLOCK_THRESHOLD <= p Challenge) ->
  App.run (App.initial p) es = Some s ->
  (0 < App.progress s Advanced -> UNLOCK_THRESHOLD <= App.progress s Intro) /\
  (0 < App.progress s Challenge ->
   UNLOCK_THRESHOLD <= App.progress s Advanced) /\
  (0 < App.progress s Hell -> UNLOCK_THRESHOLD <= App.progress s Challenge).
Proof.
  intros H1 H2 H3 Hrun.
  set (ordered := fun q : App.Progress =>
         (0 < q Advanced -> UNLOCK_THRESHOLD <= q Intro) /\
         (0 < q Challenge -> UNLOCK_THRESHOLD <= q Advanced) /\
         (0 < q Hell -> UNLOCK_THRESHOLD <= q Challenge)).
  enough (H : App.isLocked
                (App.getLockStatus (App.progress s) (App.mode s)) = false /\
              ordered (App.progress s)) by apply H.
  revert Hrun.
  apply (Invariants.run_invariant
           (fun s => App.isLocked
                       (App.getLockStatus (App.progress s) (App.mode s))
                     = false /\ ordered (App.progress s)));
    [ | split; [ reflexivity | repeat split; assumption ] ].
  clear. intros s e s' (L & O1 & O2 & O3) E.
  assert (Hmono : forall k, App.progress s k <= App.progress s' k)
    by (intros k; now apply (AppFacts.step_progress_monotone s s' e)).
  split.
  { destruct (Invariants.step_mode s s' e E) as [-> | (L' & _ & _)];
      now apply (Invariants.lock_stays_open (App.progress s)). }
  destruct e as [rx ry | c now | c | m rx ry | rx ry]; cbn [App.step] in E.
  - unfold App.modeEffect, App.generateNewTarget, JS.bind, JS.ret in E.
    destruct (App.newTarget _ _ _); [ | discriminate ].
    injection E as <-. cbn. repeat split; assumption.
  - injection E as <-. unfold App.handleCanvasClick.
    destruct (JS.sqrt_leb _ _); cbn; [ | repeat split; assumption ].
    assert (Lfact : match App.mode s with
                    | Intro => True
                    | Advanced => UNLOCK_THRESHOLD <= App.progress s Intro
                    | Challenge => UNLOCK_THRESHOLD <= App.progress s Advanced
                    | Hell => UNLOCK_THRESHOLD <= App.progress s Challenge
                    end).
    { destruct (App.mode s); [ exact I | | | ];
        cbn [App.getLockStatus App.isLocked] in L;
        apply not_true_iff_false in L;
        apply Qnot_lt_le; intros C; apply L; now apply JSFacts.ltb_spec. }
    pose proof (JSFacts.or_else_zero (App.progress s (App.mode s))) as Hor.
    unfold ordered, App.spread_set, UNLOCK_THRESHOLD in *.
    destruct (Qlt_le_dec 0 (App.progress s Advanced)) as [A | A];
      [ specialize (O1 A) | clear O1 ];
    destruct (Qlt_le_dec 0 (App.progress s Challenge)) as [B | B];
      [ specialize (O2 B) | clear O2 | specialize (O2 B) | clear O2 ];
    destruct (Qlt_le_dec 0 (App.progress s Hell)) as [C | C];
      try specialize (O3 C);
    destruct (App.mode s); cbn [level_eqb]; repeat split; intros; lra.
  - injection E as <-. cbn. repeat split; assumption.
  - unfold App.clickModeButton in E.
    destruct (App.isLocked (App.getLockStatus (App.progress s) m));
      [ injection E as <-; repeat split; assumption | ].
    destruct (level_eqb m (App.mode s));
      [ injection E as <-; repeat split; assumption | ].
    unfold App.modeEffect, App.generateNewTarget, JS.bind, JS.ret in E.
    destruct (App.newTarget _ _ _); [ | discriminate ].
    injection E as <-. cbn. repeat split; assumption.
  - unfold App.fireTimeout in E. destruct (App.timers s) as [ | t ts ].
    + injection E as <-. repeat split; assumption.
    + unfold App.generateNewTarget, JS.bind, JS.ret in E.
      destruct (App.newTarget _ _ _); [ | discriminate ].
      injection E as <-. cbn. repeat split; assumption.
Qed.

Lemma tiers_completed_in_order_witness :
  exists s,
    App.run (App.initial App.zero_progress)
      [App.Mount 0 0; App.CanvasClick {| x := 0; y := 0 |} 0;
       App.ModeButton Advanced 0 0] = Some s /\
    App.progress s Intro == 1 /\
    (0 < App.progress s Advanced -> UNLOCK_THRESHOLD <= App.progress s Intro).
Proof.
  eexists. split; [ vm_compute; reflexivity | ].
  split; [ reflexivity | ].
  apply (tiers_completed_in_order App.zero_progress
           [App.Mount 0 0; App.CanvasClick {| x := 0; y := 0 |} 0;
            App.ModeButton Advanced 0 0]);
    try (intros H; discriminate H).
  vm_compute; reflexivity.
Defined.

(** X5.  Whatever the events and the random draws, the controller reaches a
    state: no target it generates involves a division by zero, because every
    pending callback carries the configuration of one of the four tiers. *)
Theorem every_run_reaches_a_state (p : App.Progress) (es : list App.Event) :
  exists s, App.run (App.initial p) es = Some s /\ App.timers_wf s.
Proof.
  apply AppFacts.run_defined. apply AppFacts.initial_wf.
Qed.

(** X6.  A click exactly on the target is a hit in every tier: the tolerance
    of no tier is negative. *)
Theorem click_on_target_hits (now : Z) (s : App.State) :
  let s' := App.handleCanvasClick (App.target s) now s in
  App.lastResult s' =
    Some {| App.success := true; App.clickPos := App.target s;
            App.timestamp := now |} /\
  App.score s' = App.score s + 1.
Proof.
  cbv zeta. unfold App.handleCanvasClick.
  assert (H : JS.sqrt_leb
                ((x (App.target s) - x (App.target s))
                 * (x (App.target s) - x (App.target s))
                 + (y (App.target s) - y (App.target s))
                   * (y (App.target s) - y (App.target s)))
                (tolerance (App.config s)) = true).
  { unfold JS.sqrt_leb, App.config.
    destruct (AppFacts.modes_well_formed (App.mode s)) as (_ & _ & _ & Htol).
    apply andb_true_iff. split; apply Qle_bool_iff; [ exact Htol | nra ]. }
  rewrite H. split; reflexivity.
Qed.

(** X7.  Nothing guards the delay after a hit: the target stays until the
    callback runs, so a second click at the same place is a hit again.  Two
    such clicks raise the score and the tier's count by two and leave two
    callbacks pending. *)
Theorem second_click_scores_again (clickPos : Point) (now now' : Z)
    (s : App.State) :
  option_map App.success
    (App.lastResult (App.handleCanvasClick clickPos now s)) = Some true ->
  let s2 := App.handleCanvasClick clickPos now'
              (App.handleCanvasClick clickPos now s) in
  option_map App.success (App.lastResult s2) = Some true /\
  App.score s2 = App.score s + 1 + 1 /\
  App.progress s2 (App.mode s) == App.progress s (App.mode s) + 2 /\
  App.target s2 = App.target s /\
  List.length (App.timers s2) = S (S (List.length (App.timers s))).
Proof.
  intros Hfirst. cbv zeta.
  assert (Hhit : JS.sqrt_leb
                   ((x clickPos - x (App.target s))
                    * (x clickPos - x (App.target s))
                    + (y clickPos - y (App.target s))
                      * (y clickPos - y (App.target s)))
                   (tolerance (App.config s)) = true).
  { unfold App.handleCanvasClick in Hfirst.
    destruct (JS.sqrt_leb _ _); [ reflexivity | discriminate Hfirst ]. }
  rewrite (Invariants.hit_state clickPos now s Hhit).
  erewrite Invariants.hit_state by exact Hhit.
  cbn [App.lastResult App.score App.progress App.target App.timers App.mode
       option_map App.success].
  split; [ reflexivity | ]. split; [ reflexivity | ].
  split.
  { unfold App.spread_set.
    replace (level_eqb (App.mode s) (App.mode s)) with true
      by (symmetry; now apply AppFacts.level_eqb_eq).
    pose proof (JSFacts.or_else_zero (App.progress s (App.mode s))) as H1.
    pose proof (JSFacts.or_else_zero
                  (JS.or_else (App.progress s (App.mode s)) 0 + 1)) as H2.
    lra. }
  split; [ reflexivity | ].
  rewrite !List.length_app. cbn. lia.
Qed.

(** In the introductory tier, two clicks on the target at the origin. *)
Lemma second_click_scores_again_witness :
  exists s0,
    mounted_at_origin = Some s0 /\
    App.score
      (App.handleCanvasClick {| x := 0; y := 0 |} 1
         (App.handleCanvasClick {| x := 0; y := 0 |} 0 s0))
    = App.score s0 + 1 + 1.
Proof.
  eexists. split; [ vm_compute; reflexivity | ].
  apply second_click_scores_again. reflexivity.
Defined.

(* ================================================================== *)
(** * Further properties of the mapper *)

Module MapperFacts.

Import Canvas.

Section Positive.

Variable config : GameConfig.
Variable dimensions : Dimensions.

Hypothesis xSpan_positive : 0 < xSpan config.
Hypothesis ySpan_positive : 0 < ySpan config.
Hypothesis drawW_positive : 0 < drawW dimensions.
Hypothesis drawH_positive : 0 < drawH dimensions.

(** The fraction of the range a coordinate has covered. *)
Lemma fraction_spec (a lo span : Q) :
  0 < span -> (a - lo) / span * span == a - lo.
Proof. intros H. field. lra. Qed.

Lemma toPixel_inside (p : Point) :
  fst (xRange config) <= x p <= snd (xRange config) ->
  fst (yRange config) <= y p <= snd (yRange config) ->
  exists q,
    toPixel config dimensions p = Some q /\
    padding <= x q <= width dimensions - padding /\
    padding <= y q <= height dimensions - padding.
Proof.
  intros Hx Hy. eexists.
  split; [ apply CanvasFacts.toPixel_defined; lra | ].
  cbn [x y].
  pose proof (fraction_spec (x p) (fst (xRange config)) (xSpan config)
                xSpan_positive) as Fx.
  pose proof (fraction_spec (y p) (fst (yRange config)) (ySpan config)
                ySpan_positive) as Fy.
  set (tx := (x p - fst (xRange config)) / xSpan config) in *.
  set (ty := (y p - fst (yRange config)) / ySpan config) in *.
  unfold xSpan, ySpan, drawW, drawH in *.
  assert (0 <= tx <= 1) by (split; nra).
  assert (0 <= ty <= 1) by (split; nra).
  repeat split; nra.
Qed.

Lemma toPixel_order (p p' : Point) :
  exists q q',
    toPixel config dimensions p = Some q /\
    toPixel config dimensions p' = Some q' /\
    (x p < x p' <-> x q < x q') /\
    (y p < y p' <-> y q' < y q).
Proof.
  do 2 eexists.
  split; [ apply CanvasFacts.toPixel_defined; lra | ].
  split; [ apply CanvasFacts.toPixel_defined; lra | ].
  cbn [x y].
  pose proof (fraction_spec (x p) (fst (xRange config)) (xSpan config)
                xSpan_positive) as Fx.
  pose proof (fraction_spec (y p) (fst (yRange config)) (ySpan config)
                ySpan_positive) as Fy.
  pose proof (fraction_spec (x p') (fst (xRange config)) (xSpan config)
                xSpan_positive) as Fx'.
  pose proof (fraction_spec (y p') (fst (yRange config)) (ySpan config)
                ySpan_positive) as Fy'.
  set (tx := (x p - fst (xRange config)) / xSpan config) in *.
  set (ty := (y p - fst (yRange config)) / ySpan config) in *.
  set (tx' := (x p' - fst (xRange config)) / xSpan config) in *.
  set (ty' := (y p' - fst (yRange config)) / ySpan config) in *.
  split; split; intros H; nra.
Qed.

End Positive.

(** [toLogical] does not tell apart pixels whose coordinates are equal as
    rationals. *)
Lemma toLogical_compat (config : GameConfig) (dimensions : Dimensions)
    (p p' : Point) :
  x p == x p' -> y p == y p' ->
  toLogical config dimensions p = toLogical config dimensions p'.
Proof.
  intros Ex Ey.
  unfold toLogical, toLogical_lx, toLogical_ly, JS.bind, JS.ret, JS.div.
  destruct (Qeq_bool (drawW dimensions) 0); [ reflexivity | ].
  destruct (Qeq_bool (drawH dimensions) 0); [ reflexivity | ].
  f_equal. f_equal; apply JSFacts.Math_round_compat;
    [ now rewrite Ex | now rewrite Ey ].
Qed.

End MapperFacts.

(** X8.  [toPixel] maps the configured range onto the inset rectangle: with
    positive spans and positive drawable width and height, a logical point
    inside the range has its pixel inside [40, width - 40] x [40, height -
    40]; the left and right ends of the x range land on the left and right
    edges, and the bottom and top ends of the y range on the bottom and top
    edges (screen y grows downwards). *)
Theorem toPixel_onto_rectangle (config : GameConfig)
    (dimensions : Canvas.Dimensions) (p : Point) :
  0 < Canvas.xSpan config -> 0 < Canvas.ySpan config ->
  0 < Canvas.drawW dimensions -> 0 < Canvas.drawH dimensions ->
  fst (xRange config) <= x p <= snd (xRange config) ->
  fst (yRange config) <= y p <= snd (yRange config) ->
  exists q,
    Canvas.toPixel config dimensions p = Some q /\
    Canvas.padding <= x q <= Canvas.width dimensions - Canvas.padding /\
    Canvas.padding <= y q <= Canvas.height dimensions - Canvas.padding /\
    (x p == fst (xRange config) -> x q == Canvas.padding) /\
    (x p == snd (xRange config) ->
     x q == Canvas.width dimensions - Canvas.padding) /\
    (y p == fst (yRange config) ->
     y q == Canvas.height dimensions - Canvas.padding) /\
    (y p == snd (yRange config) -> y q == Canvas.padding).
Proof.
  intros Sx Sy Hw Hh Hx Hy.
  destruct (MapperFacts.toPixel_inside config dimensions Sx Sy Hw Hh p Hx Hy)
    as (q & E & Ix & Iy).
  exists q. split; [ exact E | ]. split; [ exact Ix | ]. split; [ exact Iy | ].
  rewrite CanvasFacts.toPixel_defined in E by lra.
  injection E as <-. cbn [x y].
  unfold Canvas.xSpan, Canvas.ySpan, Canvas.drawW, Canvas.drawH in *.
  repeat split; intros ->; field; lra.
Qed.

Lemma toPixel_onto_rectangle_witness :
  exists q,
    Canvas.toPixel (GAME_MODES Hell) intro_600 {| x := 240; y := -180 |}
      = Some q /\
    x q == 560 /\ y q == 560.
Proof.
  destruct (toPixel_onto_rectangle (GAME_MODES Hell) intro_600
              {| x := 240; y := -180 |})
    as (q & E & _ & _ & _ & Hr & Hb & _);
    try reflexivity; try (split; discriminate).
  exists q. split; [ exact E | ].
  split; [ now apply Hr | now apply Hb ].
Defined.

(** X9.  [toPixel] keeps the order of abscissas and reverses the order of
    ordinates: a point further right is drawn further right, a point
    further up is drawn further up the screen, that is at a smaller pixel
    y. *)
Theorem toPixel_orientation (config : GameConfig)
    (dimensions : Canvas.Dimensions) (p p' : Point) :
  0 < Canvas.xSpan config -> 0 < Canvas.ySpan config ->
  0 < Canvas.drawW dimensions -> 0 < Canvas.drawH dimensions ->
  exists q q',
    Canvas.toPixel config dimensions p = Some q /\
    Canvas.toPixel config dimensions p' = Some q' /\
    (x p < x p' <-> x q < x q') /\
    (y p < y p' <-> y q' < y q).
Proof.
  intros Sx Sy Hw Hh.
  exact (MapperFacts.toPixel_order config dimensions Sx Sy Hw Hh p p').
Qed.

Lemma toPixel_orientation_witness :
  exists q q',
    Canvas.toPixel (GAME_MODES Advanced) intro_600 {| x := 0; y := 0 |}
      = Some q /\
    Canvas.toPixel (GAME_MODES Advanced) intro_600 {| x := 1; y := 1 |}
      = Some q' /\
    x q < x q' /\ y q' < y q.
Proof.
  destruct (toPixel_orientation (GAME_MODES Advanced) intro_600
              {| x := 0; y := 0 |} {| x := 1; y := 1 |})
    as (q & q' & E & E' & Hx & Hy); try reflexivity.
  exists q, q'. split; [ exact E | ]. split; [ exact E' | ].
  split; [ now apply Hx | now apply Hy ].
Defined.

(** X10.  Every target a tier generates lies inside the tier's range, and
    is drawn inside the inset rectangle of any canvas with positive
    drawable width and height. *)
Theorem generated_target_is_visible (m : DifficultyLevel) (rx ry : Q)
    (dimensions : Canvas.Dimensions) :
  0 <= rx < 1 -> 0 <= ry < 1 ->
  0 < Canvas.drawW dimensions -> 0 < Canvas.drawH dimensions ->
  let c := GAME_MODES m in
  exists t q,
    App.newTarget c rx ry = Some t /\
    fst (xRange c) <= x t <= snd (xRange c) /\
    fst (yRange c) <= y t <= snd (yRange c) /\
    Canvas.toPixel c dimensions t = Some q /\
    Canvas.padding <= x q <= Canvas.width dimensions - Canvas.padding /\
    Canvas.padding <= y q <= Canvas.height dimensions - Canvas.padding.
Proof.
  intros Hrx Hry Hw Hh c.
  destruct (AppFacts.modes_well_formed m) as (Hstep & Hx & Hy & _).
  fold c in Hstep, Hx, Hy.
  destruct (AppFacts.getRandomCoord_on_grid _ _ _ rx Hstep Hx Hrx) as [Ex Rx].
  destruct (AppFacts.getRandomCoord_on_grid _ _ _ ry Hstep Hy Hry) as [Ey Ry].
  set (kx := Qfloor (rx * _)) in *. set (ky := Qfloor (ry * _)) in *.
  assert (bound : forall (k : Z) (lo hi : Q),
            lo <= hi ->
            (0 <= k <= Qfloor ((hi - lo) / targetStep c))%Z ->
            lo <= lo + inject_Z k * targetStep c <= hi).
  { intros k lo hi Hlh [K0 K1].
    rewrite Zle_Qle in K0, K1. change (inject_Z 0) with 0 in K0.
    pose proof (Qfloor_le ((hi - lo) / targetStep c)) as F.
    assert (D : (hi - lo) / targetStep c * targetStep c == hi - lo)
      by (field; lra).
    set (d := (hi - lo) / targetStep c) in *.
    split; nra. }
  pose proof (bound kx _ _ Hx Rx) as Bx.
  pose proof (bound ky _ _ Hy Ry) as By.
  destruct (CanvasFacts.spans_positive m) as [Sx Sy].
  destruct (MapperFacts.toPixel_inside c dimensions Sx Sy Hw Hh
              {| x := fst (xRange c) + inject_Z kx * targetStep c;
                 y := fst (yRange c) + inject_Z ky * targetStep c |} Bx By)
    as (q & Eq & Ix & Iy).
  do 2 eexists.
  split; [ unfold App.newTarget, JS.bind, JS.ret; now rewrite Ex, Ey | ].
  split; [ exact Bx | ]. split; [ exact By | ].
  split; [ exact Eq | ]. split; assumption.
Qed.

Lemma generated_target_is_visible_witness :
  exists t q,
    App.newTarget (GAME_MODES Challenge) (1 # 3) (3 # 4) = Some t /\
    Canvas.toPixel (GAME_MODES Challenge) intro_600 t = Some q /\
    Canvas.padding <= x q <= Canvas.width intro_600 - Canvas.padding.
Proof.
  destruct (generated_target_is_visible Challenge (1 # 3) (3 # 4) intro_600)
    as (t & q & Et & _ & _ & Eq & Ix & _);
    try reflexivity; try (split; [ discriminate | reflexivity ]).
  exists t, q. repeat split; assumption || apply Ix.
Defined.

(** X11.  Every point of the target grid can be drawn: for a positive step
    and an ordered range, each [min + k * step] with [k] between 0 and the
    number of steps that fit is the value of [getRandomCoord] for some draw
    in [0, 1). *)
Theorem every_grid_point_is_generated (min max step : Q) (k : Z) :
  0 < step -> min <= max ->
  (0 <= k <= Qfloor ((max - min) / step))%Z ->
  exists random v,
    0 <= random < 1 /\
    App.getRandomCoord min max step random = Some v /\
    v == min + inject_Z k * step.
Proof.
  intros Hstep Hord [K0 K1].
  set (steps := Qfloor ((max - min) / step)) in *.
  assert (Hs : 0 < inject_Z steps + 1).
  { assert (L : (0 <= steps)%Z) by lia.
    rewrite Zle_Qle in L. change (inject_Z 0) with 0 in L. lra. }
  assert (Hk : 0 <= inject_Z k <= inject_Z steps).
  { split; [ change 0 with (inject_Z 0) | ]; rewrite <- Zle_Qle; lia. }
  exists ((inject_Z k + (1 # 2)) / (inject_Z steps + 1)). eexists.
  assert (E : (inject_Z k + (1 # 2)) / (inject_Z steps + 1)
              * (inject_Z steps + 1) == inject_Z k + (1 # 2))
    by (field; lra).
  split.
  { set (r := (inject_Z k + (1 # 2)) / (inject_Z steps + 1)) in *.
    split; nra. }
  split.
  { unfold App.getRandomCoord, JS.bind, JS.ret.
    rewrite JSFacts.div_defined by lra. reflexivity. }
  unfold JS.Math_floor. fold steps.
  rewrite (JSFacts.floor_unique _ k); [ reflexivity | | ]; rewrite E; lra.
Qed.

Lemma every_grid_point_is_generated_witness :
  exists random v,
    0 <= random < 1 /\
    App.getRandomCoord (-240) 240 10 random = Some v /\ v == 0.
Proof.
  destruct (every_grid_point_is_generated (-240) 240 10 24)
    as (r & v & Hr & E & Hv);
    [ reflexivity | discriminate | split; discriminate | ].
  exists r, v. split; [ exact Hr | ]. split; [ exact E | ].
  rewrite Hv. reflexivity.
Defined.

(** X12.  Clicking the pixel at which the target is drawn is a hit.  For a
    target with integer coordinates, in any tier, on a canvas with non-zero
    drawable width and height and wherever the canvas sits in the viewport,
    a pointer click at [toPixel target] delivers the target itself and is
    scored. *)
Theorem click_on_drawn_target_hits (w : Game.World) (rect : Canvas.DOMRect)
    (now kx ky : Z) (q : Point) :
  ~ Canvas.drawW (Game.dimensions w) == 0 ->
  ~ Canvas.drawH (Game.dimensions w) == 0 ->
  App.target (Game.app w) = {| x := inject_Z kx; y := inject_Z ky |} ->
  Canvas.toPixel (App.config (Game.app w)) (Game.dimensions w)
    (App.target (Game.app w)) = Some q ->
  exists w',
    Game.pointerClick (Some rect)
      {| Canvas.clientX := x q + Canvas.rect_left rect;
         Canvas.clientY := y q + Canvas.rect_top rect |} now w = Some w' /\
    App.lastResult (Game.app w') =
      Some {| App.success := true; App.clickPos := App.target (Game.app w);
              App.timestamp := now |} /\
    App.score (Game.app w') = App.score (Game.app w) + 1.
Proof.
  intros Hw Hh Ht Hq.
  destruct (CanvasFacts.spans_positive (App.mode (Game.app w))) as [Sx Sy].
  fold (App.config (Game.app w)) in Sx, Sy.
  assert (Hback : Canvas.toLogical (App.config (Game.app w))
                    (Game.dimensions w) q = Some (App.target (Game.app w))).
  { rewrite Ht in Hq |- *.
    apply CanvasFacts.roundtrip_on_integers; try assumption; lra. }
  unfold Game.pointerClick, Canvas.handleClick.
  cbn [Canvas.clientX Canvas.clientY].
  rewrite (MapperFacts.toLogical_compat _ _ _ q) by (cbn [x y]; ring).
  rewrite Hback. unfold JS.bind, JS.ret.
  eexists. split; [ reflexivity | ]. cbn [Game.app].
  unfold App.handleCanvasClick.
  replace (JS.sqrt_leb _ _) with true; [ split; reflexivity | ].
  symmetry. unfold JS.sqrt_leb, App.config.
  destruct (AppFacts.modes_well_formed (App.mode (Game.app w)))
    as (_ & _ & _ & Htol).
  apply andb_true_iff. split; apply Qle_bool_iff; [ exact Htol | nra ].
Qed.

(** The first target (3, 5) of the introductory tier, the canvas sitting at
    (12, 7) in the viewport. *)
Lemma click_on_drawn_target_hits_witness :
  let w := {| Game.app := App.initial App.zero_progress;
              Game.dimensions := intro_600 |} in
  let rect := {| Canvas.rect_left := 12; Canvas.rect_top := 7 |} in
  exists q w',
    Canvas.toPixel (GAME_MODES Intro) intro_600 {| x := 3; y := 5 |}
      = Some q /\
    Game.pointerClick (Some rect)
      {| Canvas.clientX := x q + 12; Canvas.clientY := y q + 7 |} 3 w
      = Some w' /\
    App.score (Game.app w') = 0 + 1.
Proof.
  cbv zeta.
  assert (Hq : exists q,
             Canvas.toPixel (GAME_MODES Intro) intro_600 {| x := 3; y := 5 |}
             = Some q) by (eexists; vm_compute; reflexivity).
  destruct Hq as [q Hq].
  destruct (click_on_drawn_target_hits
              {| Game.app := App.initial App.zero_progress;
                 Game.dimensions := intro_600 |}
              {| Canvas.rect_left := 12; Canvas.rect_top := 7 |}
              3 3 5 q) as (w' & E & _ & Hs);
    [ discriminate | discriminate | reflexivity | exact Hq | ].
  exists q, w'. split; [ exact Hq | ]. split; [ exact E | exact Hs ].
Defined.

(* ================================================================== *)
(** * Further properties of the panels *)

(** X13.  Hovering only moves the mouse observer.  When the canvas delivers
    a hover position, the observer shows exactly that position (its own
    rounding changes nothing, the delivered coordinates being integers), and
    the target, the score, the progress, the result, the feedback and the
    pending callbacks stay as they were. *)
Theorem hover_only_moves_observer (w : Game.World) (rect : Canvas.DOMRect)
    (e : Canvas.MouseEvent) (pos : Point) :
  Canvas.handleMouseMove (App.config (Game.app w)) (Game.dimensions w)
    (Some rect) e = Some (Some pos) ->
  exists w',
    Game.pointerMove (Some rect) e w = Some w' /\
    App.mouseObserver (Game.app w') = (x pos, y pos) /\
    Game.app w' = App.setHoverPos pos (Game.app w) /\
    App.target (Game.app w') = App.target (Game.app w) /\
    App.score (Game.app w') = App.score (Game.app w) /\
    App.progress (Game.app w') = App.progress (Game.app w) /\
    App.lastResult (Game.app w') = App.lastResult (Game.app w) /\
    App.feedback (Game.app w') = App.feedback (Game.app w) /\
    App.timers (Game.app w') = App.timers (Game.app w).
Proof.
  intros H. unfold Game.pointerMove. rewrite H.
  eexists. split; [ reflexivity | ].
  split; [ | repeat split ].
  cbn [Canvas.handleMouseMove] in H. injection H as H.
  destruct (CanvasFacts.toLogical_integral _ _ _ _ H) as (kx & ky & ->).
  unfold App.mouseObserver. cbn.
  now rewrite !JSFacts.Math_round_integer.
Qed.

Lemma hover_only_moves_observer_witness :
  let w := {| Game.app := App.initial App.zero_progress;
              Game.dimensions := intro_600 |} in
  exists w',
    Game.pointerMove (Some at_origin)
      {| Canvas.clientX := 61; Canvas.clientY := 300 |} w = Some w' /\
    App.mouseObserver (Game.app w') = (0, 5).
Proof.
  cbv zeta.
  destruct (hover_only_moves_observer
              {| Game.app := App.initial App.zero_progress;
                 Game.dimensions := intro_600 |}
              at_origin {| Canvas.clientX := 61; Canvas.clientY := 300 |}
              {| x := 0; y := 5 |}) as (w' & E & O & _);
    [ vm_compute; reflexivity | ].
  exists w'. split; [ exact E | exact O ].
Defined.

(** X14.  The progress bar never shows more than 100 percent, shows no less
    than 0 for a count that is not negative, and is full exactly when the
    count of the tier being played has reached the unlock threshold, that
    is, exactly when the next tier, if there is one, is unlocked. *)
Theorem progress_bar_full_iff_next_unlocked (s : App.State) :
  App.progressBarWidth s <= 100 /\
  (0 <= App.progress s (App.mode s) -> 0 <= App.progressBarWidth s) /\
  (App.progressBarWidth s == 100 <->
   UNLOCK_THRESHOLD <= App.progress s (App.mode s)) /\
  match App.mode s with
  | Intro =>
      App.progressBarWidth s == 100 <->
      App.isLocked (App.getLockStatus (App.progress s) Advanced) = false
  | Advanced =>
      App.progressBarWidth s == 100 <->
      App.isLocked (App.getLockStatus (App.progress s) Challenge) = false
  | Challenge =>
      App.progressBarWidth s == 100 <->
      App.isLocked (App.getLockStatus (App.progress s) Hell) = false
  | Hell => True
  end.
Proof.
  assert (full : App.progressBarWidth s == 100 <->
                 UNLOCK_THRESHOLD <= App.progress s (App.mode s)).
  { unfold App.progressBarWidth, JS.Math_min, UNLOCK_THRESHOLD.
    set (c := App.progress s (App.mode s)).
    assert (E : c / 20 * 100 == c * 5) by field.
    destruct (Qle_bool (c / 20 * 100) 100) eqn:L.
    - apply Qle_bool_iff in L. split; intros; lra.
    - assert (~ c / 20 * 100 <= 100)
        by (intros C; apply Qle_bool_iff in C; congruence).
      split; intros; lra. }
  assert (open : forall m,
            UNLOCK_THRESHOLD <= App.progress s m <->
            JS.ltb (App.progress s m) UNLOCK_THRESHOLD = false).
  { intros m. rewrite <- not_true_iff_false, JSFacts.ltb_spec.
    split; [ intros; lra | apply Qnot_lt_le ]. }
  split; [ | split; [ | split; [ exact full | ] ] ].
  - unfold App.progressBarWidth, JS.Math_min.
    destruct (Qle_bool _ 100) eqn:L; [ now apply Qle_bool_iff | lra ].
  - intros H. unfold App.progressBarWidth, JS.Math_min, UNLOCK_THRESHOLD.
    set (c := App.progress s (App.mode s)) in *.
    assert (E : c / 20 * 100 == c * 5) by field.
    destruct (Qle_bool _ 100); lra.
  - destruct (App.mode s) eqn:Em; [ | | | exact I ];
      cbn [App.getLockStatus App.isLocked];
      rewrite full; apply open.
Qed.

(* ================================================================== *)
(** * Saving and loading the progress *)

Module StorageFacts.

Import JSON Storage.

(** *** Printed integers *)

Lemma uint_chars_digits (d : Decimal.uint) :
  Forall (fun c => is_digit c = true) (uint_chars d).
Proof. induction d; cbn [uint_chars]; constructor; auto. Qed.

Lemma span_digits_all (cs : list ascii) :
  Forall (fun c => is_digit c = true) cs -> span_digits cs = (cs, []).
Proof.
  induction 1 as [ | c cs Hc _ IH ]; [ reflexivity | ].
  cbn [span_digits]. now rewrite Hc, IH.
Qed.

(** Reading the digits left to right gives back the number. *)
Lemma digits_value_acc (d : Decimal.uint) (acc : positive) :
  fold_left (fun a c => (a * 10 + Z.of_N (code c - 48))%Z)
    (uint_chars d) (Zpos acc)
  = Zpos (Pos.of_uint_acc d acc).
Proof.
  revert acc.
  induction d; intros acc; cbn [uint_chars fold_left Pos.of_uint_acc];
    [ reflexivity | .. ];
    rewrite <- IHd; f_equal;
    match goal with
    | |- context [Z.of_N ?n] =>
        let v := eval vm_compute in (Z.of_N n) in
        change (Z.of_N n) with v
    end; lia.
Qed.

Lemma digits_value_uint (d : Decimal.uint) :
  digits_value (uint_chars d) = Z.of_N (Pos.of_uint d).
Proof.
  unfold digits_value.
  induction d; cbn [uint_chars fold_left Pos.of_uint];
    [ reflexivity | exact IHd | .. ];
    cbn [Z.of_N]; rewrite <- digits_value_acc; f_equal.
Qed.

Lemma digits_value_pos (p : positive) :
  digits_value (uint_chars (Pos.to_uint p)) = Zpos p.
Proof. now rewrite digits_value_uint, Unsigned.of_to. Qed.

(** The digits of a positive number do not start with a zero. *)
Lemma to_uint_no_leading_zero (p : positive) (r : Decimal.uint) :
  Pos.to_uint p <> Decimal.D0 r.
Proof.
  intros E.
  assert (N : Decimal.unorm (Pos.to_uint p) = Pos.to_uint p).
  { rewrite <- (Unsigned.to_of (Pos.to_uint p)), Unsigned.of_to.
    reflexivity. }
  assert (Hn : Decimal.nzhead (Pos.to_uint p) = Decimal.Nil \/
               Decimal.nzhead (Pos.to_uint p) <> Decimal.Nil)
    by (destruct (Decimal.nzhead (Pos.to_uint p));
        (now left) || (right; discriminate)).
  destruct Hn as [Hn | Hn].
  - apply unorm_0 in Hn. rewrite N in Hn.
    now apply (Unsigned.to_uint_nonzero p).
  - apply unorm_nzhead in Hn. rewrite N in Hn.
    apply (nzhead_nonzero (Pos.to_uint p) r). congruence.
Qed.

Lemma number_positive (p : positive) :
  number (uint_chars (Pos.to_uint p)) = Some (inject_Z (Zpos p * 10 ^ 0)).
Proof.
  pose proof (digits_value_pos p) as V.
  pose proof (uint_chars_digits (Pos.to_uint p)) as F.
  apply span_digits_all in F.
  pose proof (to_uint_no_leading_zero p) as Z.
  pose proof (Unsigned.to_uint_nonnil p) as NN.
  destruct (Pos.to_uint p) as [ | r | r | r | r | r | r | r | r | r | r ];
    [ congruence | exfalso; now apply (Z r) | .. ];
    cbn [uint_chars] in *; unfold number; cbn match; rewrite F;
    cbn [fraction exponent List.length Z.of_nat Z.sub Z.opp scale];
    rewrite List.app_nil_r, V; reflexivity.
Qed.

Lemma number_negative (p : positive) :
  number ("-"%char :: uint_chars (Pos.to_uint p))
  = Some (- inject_Z (Zpos p * 10 ^ 0)).
Proof.
  pose proof (digits_value_pos p) as V.
  pose proof (uint_chars_digits (Pos.to_uint p)) as F.
  apply span_digits_all in F.
  pose proof (to_uint_no_leading_zero p) as Z.
  pose proof (Unsigned.to_uint_nonnil p) as NN.
  unfold number. cbn match. rewrite F.
  destruct (Pos.to_uint p) as [ | r | r | r | r | r | r | r | r | r | r ];
    [ congruence | exfalso; now apply (Z r) | .. ];
    cbn [uint_chars] in *; cbn match;
    cbn [fraction exponent List.length Z.of_nat Z.sub Z.opp scale];
    rewrite List.app_nil_r, V; reflexivity.
Qed.

(** A word that starts with a digit or a minus sign is no literal name. *)
Lemma word_token_numeric (c : ascii) (r : list ascii) :
  is_digit c = true \/ c = "-"%char ->
  word_token (c :: r) =
  match number (c :: r) with
  | Some q => Some (TNumber q)
  | None => None
  end.
Proof.
  intros H. unfold word_token. cbn [string_of_list_ascii String.eqb].
  assert (E : Ascii.eqb c "n" = false /\ Ascii.eqb c "t" = false /\
              Ascii.eqb c "f" = false).
  { destruct H as [H | ->]; [ | repeat split ].
    destruct c as [[] [] [] [] [] [] [] []]; try discriminate H;
      repeat split. }
  destruct E as (-> & -> & ->). reflexivity.
Qed.

(** A printed integer is read back as the same number. *)
Lemma word_token_integer (n : Z) :
  exists q, word_token (integer_chars n) = Some (TNumber q) /\ q == inject_Z n.
Proof.
  destruct n as [ | p | p ]; cbn [integer_chars].
  - eexists. split; reflexivity.
  - exists (inject_Z (Zpos p * 10 ^ 0)). split.
    + pose proof (uint_chars_digits (Pos.to_uint p)) as F.
      pose proof (number_positive p) as N.
      destruct (uint_chars (Pos.to_uint p)) as [ | c r ]; [ discriminate N | ].
      rewrite word_token_numeric by (left; now inversion F).
      now rewrite N.
    + now rewrite Z.mul_1_r.
  - exists (- inject_Z (Zpos p * 10 ^ 0)). split.
    + rewrite word_token_numeric by now right.
      now rewrite number_negative.
    + rewrite Z.mul_1_r. reflexivity.
Qed.

(** *** Lexing a printed member *)

Lemma word_char_not_ws (c : ascii) : is_word_char c = true -> is_ws c = false.
Proof.
  destruct c as [[] [] [] [] [] [] [] []]; intros H;
    try discriminate H; reflexivity.
Qed.

Lemma integer_chars_word (n : Z) :
  exists c r,
    integer_chars n = c :: r /\
    Forall (fun a => is_word_char a = true) (c :: r).
Proof.
  assert (W : forall d, Forall (fun a => is_word_char a = true) (uint_chars d)).
  { intros d. apply Forall_impl with (2 := uint_chars_digits d).
    intros a Ha. unfold is_word_char. now rewrite Ha. }
  destruct n as [ | p | p ]; cbn [integer_chars].
  - do 2 eexists. split; [ reflexivity | ]. repeat constructor.
  - pose proof (number_positive p) as N. pose proof (W (Pos.to_uint p)) as F.
    destruct (uint_chars (Pos.to_uint p)) as [ | c r ]; [ discriminate N | ].
    now exists c, r.
  - do 2 eexists. split; [ reflexivity | ].
    constructor; [ reflexivity | apply W ].
Qed.

(** Inside a word the lexer collects characters up to the first one that
    cannot belong to a word. *)
Lemma lex_word_run (ds : list ascii) :
  Forall (fun a => is_word_char a = true) ds ->
  forall acc toks c rest,
    is_word_char c = false ->
    lex_from (InWord acc, toks) (ds ++ c :: rest) =
    match word_token (rev acc ++ ds) with
    | Some t =>
        match idle_step (t :: toks) c with
        | Some st => lex_from st rest
        | None => None
        end
    | None => None
    end.
Proof.
  induction 1 as [ | d ds Hd _ IH ]; intros acc toks c rest Hc.
  - cbn [app lex_from lex_step]. rewrite Hc, List.app_nil_r.
    destruct (word_token (rev acc)) as [t | ]; [ | reflexivity ].
    now destruct (idle_step (t :: toks) c).
  - cbn [app lex_from lex_step]. rewrite Hd.
    rewrite (IH (d :: acc) toks c rest Hc).
    cbn [rev]. now rewrite <- List.app_assoc.
Qed.

Lemma lex_integer (n : Z) (q : Q) (toks : list token) (c : ascii)
    (t : token) (rest : list ascii) :
  word_token (integer_chars n) = Some (TNumber q) ->
  (c = ","%char /\ t = Comma) \/ (c = "}"%char /\ t = RBrace) ->
  lex_from (Idle, toks) (integer_chars n ++ c :: rest)
  = lex_from (Idle, t :: TNumber q :: toks) rest.
Proof.
  intros Hq Hc.
  destruct (integer_chars_word n) as (d & ds & E & F).
  rewrite E in Hq |- *. inversion F as [ | ? ? Hd Hds ]; subst.
  cbn [app lex_from lex_step]. unfold idle_step at 1.
  rewrite (word_char_not_ws d Hd), Hd.
  rewrite (lex_word_run ds Hds [d] toks c rest)
    by (destruct Hc as [[-> _] | [-> _]]; reflexivity).
  cbn [rev app]. rewrite Hq.
  destruct Hc as [[-> ->] | [-> ->]]; reflexivity.
Qed.

Lemma lex_key (m : DifficultyLevel) (toks : list token) (rest : list ascii) :
  lex_from (Idle, toks)
    (quote :: list_ascii_of_string (level_id m) ++ quote :: ":"%char :: rest)
  = lex_from (Idle, Colon :: TString (level_id m) :: toks) rest.
Proof. destruct m; reflexivity. Qed.

Lemma lex_member (m : DifficultyLevel) (n : Z) (q : Q)
    (toks : list token) (c : ascii) (t : token) (rest : list ascii) :
  word_token (integer_chars n) = Some (TNumber q) ->
  (c = ","%char /\ t = Comma) \/ (c = "}"%char /\ t = RBrace) ->
  lex_from (Idle, toks)
    ((quote :: list_ascii_of_string (level_id m)
      ++ quote :: ":"%char :: integer_chars n) ++ c :: rest)
  = lex_from
      (Idle, t :: TNumber q :: Colon :: TString (level_id m) :: toks) rest.
Proof.
  intros Hq Hc.
  replace ((quote :: list_ascii_of_string (level_id m)
            ++ quote :: ":"%char :: integer_chars n) ++ c :: rest)
    with (quote :: list_ascii_of_string (level_id m)
          ++ quote :: ":"%char :: (integer_chars n ++ c :: rest))
    by (cbn [app]; now rewrite <- List.app_assoc).
  rewrite lex_key. now apply lex_integer.
Qed.

(** *** Printing a count *)

Lemma Number_toString_integer (q : Q) (n : Z) :
  q == inject_Z n -> (Z.abs n < 10 ^ 21)%Z ->
  Number_toString q = Some (integer_chars n).
Proof.
  intros E B. unfold Number_toString.
  assert (F : Qfloor q = n) by (rewrite E; apply Qfloor_Z).
  rewrite F.
  replace (Qeq_bool q (inject_Z n)) with true
    by (symmetry; now apply Qeq_bool_iff).
  replace (Z.abs n <? 10 ^ 21)%Z with true
    by (symmetry; now apply Z.ltb_lt).
  reflexivity.
Qed.

End StorageFacts.

(** X15.  Saving then loading gives the progress back.  When every count is
    an integer (of magnitude below 10^21, so that it prints as plain
    digits), the text the persist effect stores is read by the initializer
    at the next start without a console message, and the value read maps
    each difficulty id to the count that was saved. *)
Theorem save_then_load (p : App.Progress) :
  (forall m, exists n : Z, p m == inject_Z n /\ (Z.abs n < 10 ^ 21)%Z) ->
  exists text v p',
    Storage.persist p = Some text /\
    App.progress_initializer (Some text) = (v, []) /\
    App.as_progress v = Some p' /\
    forall m, p' m == p m.
Proof.
  intros Hint.
  destruct (Hint Intro) as (n1 & E1 & B1).
  destruct (Hint Advanced) as (n2 & E2 & B2).
  destruct (Hint Challenge) as (n3 & E3 & B3).
  destruct (Hint Hell) as (n4 & E4 & B4).
  destruct (StorageFacts.word_token_integer n1) as (q1 & W1 & Q1).
  destruct (StorageFacts.word_token_integer n2) as (q2 & W2 & Q2).
  destruct (StorageFacts.word_token_integer n3) as (q3 & W3 & Q3).
  destruct (StorageFacts.word_token_integer n4) as (q4 & W4 & Q4).
  set (mem := fun m n =>
         Storage.quote :: list_ascii_of_string (level_id m)
         ++ Storage.quote :: ":"%char :: Storage.integer_chars n).
  set (chars := "{"%char :: mem Intro n1 ++ ","%char :: mem Advanced n2
                ++ ","%char :: mem Challenge n3 ++ ","%char :: mem Hell n4
                ++ ["}"%char]).
  exists (string_of_list_ascii chars).
  exists (JSON.JObject
            [(level_id Intro, JSON.JNumber q1);
             (level_id Advanced, JSON.JNumber q2);
             (level_id Challenge, JSON.JNumber q3);
             (level_id Hell, JSON.JNumber q4)]).
  eexists.
  split.
  { unfold Storage.persist, Storage.JSON_stringify, Storage.member.
    rewrite (StorageFacts.Number_toString_integer _ _ E1 B1),
            (StorageFacts.Number_toString_integer _ _ E2 B2),
            (StorageFacts.Number_toString_integer _ _ E3 B3),
            (StorageFacts.Number_toString_integer _ _ E4 B4).
    reflexivity. }
  split.
  { unfold App.progress_initializer.
    replace (String.eqb (string_of_list_ascii chars) "") with false
      by reflexivity.
    unfold JSON.parse, JSON.lex.
    rewrite list_ascii_of_string_of_list_ascii.
    unfold chars, mem. cbn [JSON.lex_from JSON.lex_step].
    change (JSON.idle_step [] "{") with (Some (JSON.Idle, [JSON.LBrace])).
    cbv iota.
    rewrite (StorageFacts.lex_member Intro n1 q1 _ ","%char JSON.Comma)
      by (exact W1 || now left).
    rewrite (StorageFacts.lex_member Advanced n2 q2 _ ","%char JSON.Comma)
      by (exact W2 || now left).
    rewrite (StorageFacts.lex_member Challenge n3 q3 _ ","%char JSON.Comma)
      by (exact W3 || now left).
    rewrite (StorageFacts.lex_member Hell n4 q4 _ "}"%char JSON.RBrace)
      by (exact W4 || now right).
    reflexivity. }
  split; [ reflexivity | ].
  intros m. destruct m; cbv beta iota; lra.
Qed.

(** A player with 23 completions of the introductory tier. *)
Lemma save_then_load_witness :
  let p := App.spread_set App.zero_progress Intro 23 in
  exists text v p',
    Storage.persist p = Some text /\
    App.progress_initializer (Some text) = (v, []) /\
    App.as_progress v = Some p' /\
    p' Intro == 23.
Proof.
  cbv zeta.
  destruct (save_then_load (App.spread_set App.zero_progress Intro 23))
    as (text & v & p' & Hs & Hl & Ha & Hp).
  { intros m. destruct m; [ exists 23%Z | exists 0%Z ..  ];
      split; reflexivity. }
  exists text, v, p'. repeat split; try assumption.
  now rewrite (Hp Intro).
Defined.

(* ================================================================== *)
(** * The drawing effect *)

Module RendererFacts.

Import Canvas Renderer.

(** In a tier [toPixel] is defined at every point, whatever the canvas. *)
Lemma toPixel_tier (m : DifficultyLevel) (dimensions : Dimensions)
    (p : Point) :
  exists q, toPixel (GAME_MODES m) dimensions p = Some q.
Proof.
  destruct (CanvasFacts.spans_positive m) as [Sx Sy].
  eexists. apply CanvasFacts.toPixel_defined; lra.
Qed.

(** *** The loop *)

Lemma floor_minus_one (q : Q) : Qfloor (q - 1) = (Qfloor q - 1)%Z.
Proof.
  destruct (JSFacts.floor_bounds q) as [Lo Hi].
  apply JSFacts.floor_unique;
    replace (Qfloor q - 1)%Z with (Qfloor q + -1)%Z by lia;
    rewrite inject_Z_plus; change (inject_Z (-1)) with (- (1)); lra.
Qed.

(** With a positive step the loop ends by its own test. *)
Lemma for_loop_defined (hi step : Q) (body : Q -> JS.fallible (list Cmd)) :
  0 < step ->
  (forall v, exists cmds, body v = Some cmds) ->
  forall fuel v,
    (rounds v hi step <= fuel)%nat ->
    exists cmds, for_loop fuel v hi step body = Some cmds.
Proof.
  intros Hstep Hbody. induction fuel as [ | fuel IH ]; intros v Hfuel;
    cbn [for_loop]; destruct (Qle_bool v hi) eqn:Hv;
    try (eexists; reflexivity); apply Qle_bool_iff in Hv.
  - exfalso. unfold rounds in Hfuel.
    assert (F : (0 <= Qfloor ((hi - v) / step))%Z).
    { rewrite <- (Qfloor_Z 0). apply Qfloor_resp_le.
      change (inject_Z 0) with 0. apply Qle_shift_div_l; lra. }
    lia.
  - destruct (Hbody v) as [cmds ->].
    destruct (IH (v + step)) as [rest ->]; [ | eexists; reflexivity ].
    unfold rounds in *.
    assert (E : (hi - (v + step)) / step == (hi - v) / step - 1)
      by (field; lra).
    rewrite E, floor_minus_one. lia.
Qed.

(** What holds of every round holds of the whole loop. *)
Lemma for_loop_Forall (P : Cmd -> Prop) (hi step : Q)
    (body : Q -> JS.fallible (list Cmd)) :
  (forall v cmds, body v = Some cmds -> Forall P cmds) ->
  forall fuel v cmds,
    for_loop fuel v hi step body = Some cmds -> Forall P cmds.
Proof.
  intros Hbody. induction fuel as [ | fuel IH ]; intros v cmds;
    cbn [for_loop]; destruct (Qle_bool v hi);
    try (intros [= <-]; constructor); try discriminate.
  unfold JS.bind, JS.ret.
  destruct (body v) as [c | ] eqn:Eb; [ | discriminate ].
  destruct (for_loop fuel (v + step) hi step body) as [r | ] eqn:Er;
    [ | discriminate ].
  intros [= <-]. apply Forall_app. split; [ now apply (Hbody v) | ].
  now apply (IH (v + step)).
Qed.

(** *** One round *)

(** A remainder of zero means an integer multiple. *)
Lemma rem_is_zero_multiple (a b : Q) :
  JS.rem_is_zero a b = true -> exists k : Z, a == inject_Z k * b.
Proof.
  unfold JS.rem_is_zero, JS.div.
  destruct (Qeq_bool b 0); [ discriminate | ].
  intros H. apply Qeq_bool_iff in H.
  exists (JS.trunc (a / b)). lra.
Qed.

Lemma labelled_spec (config : GameConfig) (v : Q) :
  labelled config v = true ->
  ~ v == 0 /\ exists k : Z, v == inject_Z k * labelStep config.
Proof.
  unfold labelled. intros H. apply andb_true_iff in H as [R N]. split.
  - intros E. apply Qeq_bool_iff in E. rewrite E in N. discriminate.
  - now apply rem_is_zero_multiple.
Qed.

Lemma line_style_shape (config : GameConfig) (v : Q) :
  exists w c, line_style config v = [lineWidth w; strokeStyle c].
Proof.
  unfold line_style. destruct (Qeq_bool v 0); [ eauto | ].
  destruct (majorGridStep config) as [major | ]; [ | eauto ].
  destruct (Qeq_bool major 0); [ eauto | ].
  destruct (JS.rem_is_zero v major); eauto.
Qed.

(** The shape of what a round of the loop over x draws. *)
Lemma vertical_line_shape (config : GameConfig) (dimensions : Dimensions)
    (v : Q) (cmds : list Cmd) :
  vertical_line config dimensions v = Some cmds ->
  cmds = [] \/
  exists p1 p2 w c label,
    fst (xRange config) <= clean v <= snd (xRange config) /\
    toPixel config dimensions
      {| x := clean v; y := fst (yRange config) |} = Some p1 /\
    toPixel config dimensions
      {| x := clean v; y := snd (yRange config) |} = Some p2 /\
    cmds = [beginPath; lineWidth w; strokeStyle c;
            moveTo (x p1) (y p1); lineTo (x p2) (y p2); stroke] ++ label /\
    line_style config (clean v) = [lineWidth w; strokeStyle c] /\
    (label = [] \/
     exists px py,
       labelled config (clean v) = true /\
       label = [fillStyle "#64748b"; fillText [App.Num (clean v)] px py]).
Proof.
  unfold vertical_line.
  destruct (JS.ltb (clean v) (fst (xRange config))
            || JS.ltb (snd (xRange config)) (clean v)) eqn:G;
    [ intros [= <-]; now left | ].
  apply orb_false_iff in G as [G1 G2].
  assert (R : fst (xRange config) <= clean v <= snd (xRange config)).
  { split; apply Qnot_lt_le; intros C; apply JSFacts.ltb_spec in C;
      congruence. }
  unfold JS.bind, JS.ret.
  destruct (toPixel config dimensions
              {| x := clean v; y := fst (yRange config) |}) as [p1 | ];
    [ | discriminate ].
  destruct (toPixel config dimensions
              {| x := clean v; y := snd (yRange config) |}) as [p2 | ];
    [ | discriminate ].
  destruct (line_style_shape config (clean v)) as (w & c & Es).
  rewrite Es.
  destruct (labelled config (clean v)) eqn:L.
  - destruct (toPixel config dimensions {| x := clean v; y := 0 |})
      as [tp | ]; [ | discriminate ].
    intros [= <-]. right. exists p1, p2, w, c. eexists.
    repeat split; try reflexivity; try apply R. right. eauto.
  - intros [= <-]. right. exists p1, p2, w, c, [].
    repeat split; try reflexivity; try apply R. now left.
Qed.

(** The shape of what a round of the loop over y draws. *)
Lemma horizontal_line_shape (config : GameConfig) (dimensions : Dimensions)
    (v : Q) (cmds : list Cmd) :
  horizontal_line config dimensions v = Some cmds ->
  cmds = [] \/
  exists p1 p2 w c label,
    fst (yRange config) <= clean v <= snd (yRange config) /\
    toPixel config dimensions
      {| x := fst (xRange config); y := clean v |} = Some p1 /\
    toPixel config dimensions
      {| x := snd (xRange config); y := clean v |} = Some p2 /\
    cmds = [beginPath; lineWidth w; strokeStyle c;
            moveTo (x p1) (y p1); lineTo (x p2) (y p2); stroke] ++ label /\
    line_style config (clean v) = [lineWidth w; strokeStyle c] /\
    (label = [] \/
     exists px py,
       labelled config (clean v) = true /\
       label = [fillStyle "#64748b"; fillText [App.Num (clean v)] px py]).
Proof.
  unfold horizontal_line.
  destruct (JS.ltb (clean v) (fst (yRange config))
            || JS.ltb (snd (yRange config)) (clean v)) eqn:G;
    [ intros [= <-]; now left | ].
  apply orb_false_iff in G as [G1 G2].
  assert (R : fst (yRange config) <= clean v <= snd (yRange config)).
  { split; apply Qnot_lt_le; intros C; apply JSFacts.ltb_spec in C;
      congruence. }
  unfold JS.bind, JS.ret.
  destruct (toPixel config dimensions
              {| x := fst (xRange config); y := clean v |}) as [p1 | ];
    [ | discriminate ].
  destruct (toPixel config dimensions
              {| x := snd (xRange config); y := clean v |}) as [p2 | ];
    [ | discriminate ].
  destruct (line_style_shape config (clean v)) as (w & c & Es).
  rewrite Es.
  destruct (labelled config (clean v)) eqn:L.
  - destruct (toPixel config dimensions {| x := 0; y := clean v |})
      as [tp | ]; [ | discriminate ].
    intros [= <-]. right. exists p1, p2, w, c. eexists.
    repeat split; try reflexivity; try apply R. right. eauto.
  - intros [= <-]. right. exists p1, p2, w, c, [].
    repeat split; try reflexivity; try apply R. now left.
Qed.

(** In a tier every round draws something or nothing, but never fails. *)
Lemma vertical_line_tier (m : DifficultyLevel) (dimensions : Dimensions)
    (v : Q) :
  exists cmds, vertical_line (GAME_MODES m) dimensions v = Some cmds.
Proof.
  unfold vertical_line, JS.bind, JS.ret.
  destruct (_ || _); [ eauto | ].
  destruct (toPixel_tier m dimensions
              {| x := clean v; y := fst (yRange (GAME_MODES m)) |}) as [? ->].
  destruct (toPixel_tier m dimensions
              {| x := clean v; y := snd (yRange (GAME_MODES m)) |}) as [? ->].
  destruct (labelled _ _); [ | eauto ].
  destruct (toPixel_tier m dimensions {| x := clean v; y := 0 |}) as [? ->].
  eauto.
Qed.

Lemma horizontal_line_tier (m : DifficultyLevel) (dimensions : Dimensions)
    (v : Q) :
  exists cmds, horizontal_line (GAME_MODES m) dimensions v = Some cmds.
Proof.
  unfold horizontal_line, JS.bind, JS.ret.
  destruct (_ || _); [ eauto | ].
  destruct (toPixel_tier m dimensions
              {| x := fst (xRange (GAME_MODES m)); y := clean v |}) as [? ->].
  destruct (toPixel_tier m dimensions
              {| x := snd (xRange (GAME_MODES m)); y := clean v |}) as [? ->].
  destruct (labelled _ _); [ | eauto ].
  destruct (toPixel_tier m dimensions {| x := 0; y := clean v |}) as [? ->].
  eauto.
Qed.

End RendererFacts.

(** X16.  In every tier the drawing completes, whatever the size of the
    canvas, the device pixel ratio and the last result: both grid loops end
    by their own test and no coordinate divides by zero.  Without a canvas
    element or a 2D context nothing is drawn. *)
Theorem drawing_completes (surface : Renderer.Surface) (m : DifficultyLevel)
    (dimensions : Canvas.Dimensions) (devicePixelRatio : option Q)
    (lastResult : option App.LastResult) :
  exists cmds,
    Renderer.draw surface (GAME_MODES m) dimensions devicePixelRatio
      lastResult = Some cmds /\
    (surface <> Renderer.Context2D -> cmds = []) /\
    (surface = Renderer.Context2D ->
     exists rest,
       cmds = Renderer.prepare dimensions devicePixelRatio ++ rest).
Proof.
  destruct surface; cbn [Renderer.draw];
    try (exists []; split; [ reflexivity | ];
         split; [ reflexivity | discriminate ]).
  assert (Hstep : 0 < gridStep (GAME_MODES m)) by (destruct m; reflexivity).
  destruct (RendererFacts.for_loop_defined
              (snd (xRange (GAME_MODES m))) _
              (Renderer.vertical_line (GAME_MODES m) dimensions) Hstep
              (RendererFacts.vertical_line_tier m dimensions)
              _ (fst (xRange (GAME_MODES m))) (le_n _)) as [vs Hvs].
  destruct (RendererFacts.for_loop_defined
              (snd (yRange (GAME_MODES m))) _
              (Renderer.horizontal_line (GAME_MODES m) dimensions) Hstep
              (RendererFacts.horizontal_line_tier m dimensions)
              _ (fst (yRange (GAME_MODES m))) (le_n _)) as [hs Hhs].
  unfold Renderer.vertical_lines, Renderer.horizontal_lines.
  rewrite Hvs, Hhs.
  unfold Renderer.origin_label, Renderer.axis_arrows, Renderer.result_marker,
    JS.bind, JS.ret.
  destruct (RendererFacts.toPixel_tier m dimensions {| x := 0; y := 0 |})
    as [o ->].
  destruct (RendererFacts.toPixel_tier m dimensions
              {| x := snd (xRange (GAME_MODES m)); y := 0 |}) as [xe ->].
  destruct (RendererFacts.toPixel_tier m dimensions
              {| x := 0; y := snd (yRange (GAME_MODES m)) |}) as [ye ->].
  destruct lastResult as [r | ].
  - destruct (RendererFacts.toPixel_tier m dimensions (App.clickPos r))
      as [q ->].
    destruct (App.success r); eexists;
      (split; [ reflexivity | ]); (split; [ congruence | ]);
      intros _; eexists; reflexivity.
  - eexists. split; [ reflexivity | ]. split; [ congruence | ].
    intros _. eexists. reflexivity.
Qed.

(** X17.  Every grid line is drawn inside the inset rectangle: for positive
    spans and positive drawable width and height, the end points of all the
    segments of the two grid loops lie within [40, width - 40] x [40, height
    - 40]. *)
Theorem grid_lines_within_inset (config : GameConfig)
    (dimensions : Canvas.Dimensions) (vs hs : list Renderer.Cmd) :
  0 < Canvas.xSpan config -> 0 < Canvas.ySpan config ->
  0 < Canvas.drawW dimensions -> 0 < Canvas.drawH dimensions ->
  Renderer.vertical_lines config dimensions = Some vs ->
  Renderer.horizontal_lines config dimensions = Some hs ->
  Forall (Renderer.within_inset dimensions) vs /\
  Forall (Renderer.within_inset dimensions) hs.
Proof.
  intros Sx Sy Hw Hh Hvs Hhs.
  assert (Rx : fst (xRange config) <= fst (xRange config) <= snd (xRange config)
               /\ fst (xRange config) <= snd (xRange config)
                  <= snd (xRange config))
    by (unfold Canvas.xSpan in Sx; repeat split; lra).
  assert (Ry : fst (yRange config) <= fst (yRange config) <= snd (yRange config)
               /\ fst (yRange config) <= snd (yRange config)
                  <= snd (yRange config))
    by (unfold Canvas.ySpan in Sy; repeat split; lra).
  assert (inside : forall p q,
            fst (xRange config) <= x p <= snd (xRange config) ->
            fst (yRange config) <= y p <= snd (yRange config) ->
            Canvas.toPixel config dimensions p = Some q ->
            Canvas.padding <= x q <= Canvas.width dimensions - Canvas.padding
            /\ Canvas.padding <= y q
               <= Canvas.height dimensions - Canvas.padding).
  { intros p q Px Py E.
    destruct (MapperFacts.toPixel_inside config dimensions Sx Sy Hw Hh p Px Py)
      as (q' & E' & I). congruence. }
  split.
  - apply (RendererFacts.for_loop_Forall _ _ _ _) with (2 := Hvs).
    intros v cmds Hb.
    destruct (RendererFacts.vertical_line_shape _ _ _ _ Hb)
      as [-> | (p1 & p2 & w & c & label & R & E1 & E2 & -> & _ & Hl)];
      [ constructor | ].
    apply Forall_app. split.
    + repeat first [ apply Forall_nil | apply Forall_cons ]; try exact I;
        [ exact (inside {| x := Renderer.clean v; y := fst (yRange config) |}
                   p1 R (proj1 Ry) E1)
        | exact (inside {| x := Renderer.clean v; y := snd (yRange config) |}
                   p2 R (proj2 Ry) E2) ].
    + destruct Hl as [-> | (px & py & _ & ->)];
        repeat first [ apply Forall_nil | apply Forall_cons ]; exact I.
  - apply (RendererFacts.for_loop_Forall _ _ _ _) with (2 := Hhs).
    intros v cmds Hb.
    destruct (RendererFacts.horizontal_line_shape _ _ _ _ Hb)
      as [-> | (p1 & p2 & w & c & label & R & E1 & E2 & -> & _ & Hl)];
      [ constructor | ].
    apply Forall_app. split.
    + repeat first [ apply Forall_nil | apply Forall_cons ]; try exact I;
        [ exact (inside {| x := fst (xRange config); y := Renderer.clean v |}
                   p1 (proj1 Rx) R E1)
        | exact (inside {| x := snd (xRange config); y := Renderer.clean v |}
                   p2 (proj2 Rx) R E2) ].
    + destruct Hl as [-> | (px & py & _ & ->)];
        repeat first [ apply Forall_nil | apply Forall_cons ]; exact I.
Qed.

(** The grid of the introductory tier at 600 by 600 pixels. *)
Lemma grid_lines_within_inset_witness :
  exists vs hs,
    Renderer.vertical_lines (GAME_MODES Intro) intro_600 = Some vs /\
    Renderer.horizontal_lines (GAME_MODES Intro) intro_600 = Some hs /\
    Renderer.strokes vs = 11%nat /\
    Forall (Renderer.within_inset intro_600) vs /\
    Forall (Renderer.within_inset intro_600) hs.
Proof.
  assert (Hvs : exists vs,
             Renderer.vertical_lines (GAME_MODES Intro) intro_600 = Some vs /\
             Renderer.strokes vs = 11%nat)
    by (eexists; split; vm_compute; reflexivity).
  assert (Hhs : exists hs,
             Renderer.horizontal_lines (GAME_MODES Intro) intro_600 = Some hs)
    by (eexists; vm_compute; reflexivity).
  destruct Hvs as (vs & Hvs & Hn). destruct Hhs as (hs & Hhs).
  exists vs, hs. split; [ exact Hvs | ]. split; [ exact Hhs | ].
  split; [ exact Hn | ].
  apply (grid_lines_within_inset (GAME_MODES Intro) intro_600 vs hs);
    try reflexivity; assumption.
Defined.

(** X18.  No grid label shows zero, and every grid label shows a multiple
    of the label step: in a finished drawing, each text that is an
    interpolated number is a non-zero integer multiple of [labelStep].  (The
    origin is labelled apart, with the literal text 0.) *)
Theorem grid_labels_skip_zero (surface : Renderer.Surface)
    (config : GameConfig) (dimensions : Canvas.Dimensions)
    (devicePixelRatio : option Q) (lastResult : option App.LastResult)
    (cmds : list Renderer.Cmd) :
  Renderer.draw surface config dimensions devicePixelRatio lastResult
    = Some cmds ->
  Forall (Renderer.label_rule config) cmds.
Proof.
  assert (round : forall l,
            l = [] \/
            (exists p1 p2 w c label v,
               l = [Renderer.beginPath; Renderer.lineWidth w;
                    Renderer.strokeStyle c;
                    Renderer.moveTo (x p1) (y p1);
                    Renderer.lineTo (x p2) (y p2); Renderer.stroke]
                   ++ label /\
               (label = [] \/
                exists px py,
                  Renderer.labelled config v = true /\
                  label = [Renderer.fillStyle "#64748b";
                           Renderer.fillText [App.Num v] px py])) ->
            Forall (Renderer.label_rule config) l).
  { intros l [-> | (p1 & p2 & w & c & label & v & -> & Hl)];
      [ constructor | ].
    apply Forall_app. split.
    - repeat first [ apply Forall_nil | apply Forall_cons ]; exact I.
    - destruct Hl as [-> | (px & py & L & ->)]; [ constructor | ].
      repeat first [ apply Forall_nil | apply Forall_cons ];
        [ exact I | exact (RendererFacts.labelled_spec config v L) ]. }
  destruct surface; cbn [Renderer.draw];
    try (intros [= <-]; constructor).
  unfold JS.bind, JS.ret.
  destruct (Renderer.vertical_lines config dimensions) as [vs | ] eqn:Hvs;
    [ | discriminate ].
  destruct (Renderer.horizontal_lines config dimensions) as [hs | ] eqn:Hhs;
    [ | discriminate ].
  destruct (Renderer.origin_label config dimensions) as [o | ] eqn:Ho;
    [ | discriminate ].
  destruct (Renderer.axis_arrows config dimensions) as [a | ] eqn:Ha;
    [ | discriminate ].
  destruct (Renderer.result_marker config dimensions lastResult)
    as [mk | ] eqn:Hm; [ | discriminate ].
  intros [= <-]. unfold Renderer.prepare. cbn [app].
  repeat (apply Forall_cons; [ exact I | ]).
  apply Forall_app; split;
    [ | apply Forall_app; split;
        [ | apply Forall_app; split; [ | apply Forall_app; split ] ] ].
  - apply (RendererFacts.for_loop_Forall _ _ _ _) with (2 := Hvs).
    intros v l Hb. apply round.
    destruct (RendererFacts.vertical_line_shape _ _ _ _ Hb)
      as [-> | (p1 & p2 & w & c & label & _ & _ & _ & -> & _ & Hl)];
      [ now left | right ].
    exists p1, p2, w, c, label, (Renderer.clean v). split; [ reflexivity | ].
    exact Hl.
  - apply (RendererFacts.for_loop_Forall _ _ _ _) with (2 := Hhs).
    intros v l Hb. apply round.
    destruct (RendererFacts.horizontal_line_shape _ _ _ _ Hb)
      as [-> | (p1 & p2 & w & c & label & _ & _ & _ & -> & _ & Hl)];
      [ now left | right ].
    exists p1, p2, w, c, label, (Renderer.clean v). split; [ reflexivity | ].
    exact Hl.
  - unfold Renderer.origin_label, JS.bind, JS.ret in Ho.
    destruct (Canvas.toPixel _ _ _); [ | discriminate ].
    injection Ho as <-.
    destruct (originPos config);
      repeat first [ apply Forall_nil | apply Forall_cons ]; exact I.
  - unfold Renderer.axis_arrows, JS.bind, JS.ret in Ha.
    destruct (Canvas.toPixel _ _ _); [ | discriminate ].
    destruct (Canvas.toPixel _ _ _); [ | discriminate ].
    injection Ha as <-.
    repeat first [ apply Forall_nil | apply Forall_cons ]; exact I.
  - unfold Renderer.result_marker, JS.bind, JS.ret in Hm.
    destruct lastResult as [r | ]; [ | injection Hm as <-; constructor ].
    destruct (Canvas.toPixel _ _ _); [ | discriminate ].
    destruct (App.success r); injection Hm as <-;
      repeat first [ apply Forall_nil | apply Forall_cons ]; exact I.
Qed.

(** The drawing of the last tier on a canvas 600 pixels wide. *)
Lemma grid_labels_skip_zero_witness :
  exists cmds,
    Renderer.draw Renderer.Context2D (GAME_MODES Hell) intro_600 None None
      = Some cmds /\
    Forall (Renderer.label_rule (GAME_MODES Hell)) cmds.
Proof.
  assert (H : exists cmds,
            Renderer.draw Renderer.Context2D (GAME_MODES Hell) intro_600
              None None = Some cmds)
    by (eexists; vm_compute; reflexivity).
  destruct H as [cmds H]. exists cmds. split; [ exact H | ].
  exact (grid_labels_skip_zero _ _ _ _ _ _ H).
Defined.

(** X19.  The marker follows the click and is painted last.  After a click
    the drawing ends with a star at the pixel of the target when the click
    was a hit (not at the pixel of the click), and with a red cross centred
    on the pixel of the click when it was a miss. *)
Theorem marker_follows_click (clickPos : Point) (now : Z) (s : App.State)
    (dimensions : Canvas.Dimensions) (devicePixelRatio : option Q)
    (cmds : list Renderer.Cmd) :
  let s' := App.handleCanvasClick clickPos now s in
  Renderer.draw Renderer.Context2D (App.config s') dimensions
    devicePixelRatio (App.lastResult s') = Some cmds ->
  exists hit q before,
    option_map App.success (App.lastResult s') = Some hit /\
    Canvas.toPixel (App.config s) dimensions
      (if hit then App.target s else clickPos) = Some q /\
    cmds = before ++
      (if hit
       then [Renderer.font "40px serif";
             Renderer.fillText [App.Lit "⭐"] (x q) (y q)]
       else [Renderer.strokeStyle "#ef4444"; Renderer.lineWidth 3;
             Renderer.beginPath;
             Renderer.moveTo (x q - 8) (y q - 8);
             Renderer.lineTo (x q + 8) (y q + 8);
             Renderer.moveTo (x q + 8) (y q - 8);
             Renderer.lineTo (x q - 8) (y q + 8);
             Renderer.stroke]).
Proof.
  cbv zeta.
  assert (Hc : App.config (App.handleCanvasClick clickPos now s)
               = App.config s)
    by (unfold App.handleCanvasClick; now destruct (JS.sqrt_leb _ _)).
  rewrite Hc.
  assert (Hr : exists hit,
             App.lastResult (App.handleCanvasClick clickPos now s)
             = Some {| App.success := hit;
                       App.clickPos := if hit then App.target s else clickPos;
                       App.timestamp := now |})
    by (unfold App.handleCanvasClick;
        destruct (JS.sqrt_leb _ _); [ exists true | exists false ];
        reflexivity).
  destruct Hr as [hit Hr]. rewrite Hr.
  cbn [Renderer.draw]. unfold JS.bind, JS.ret.
  destruct (Renderer.vertical_lines _ _) as [vs | ]; [ | discriminate ].
  destruct (Renderer.horizontal_lines _ _) as [hs | ]; [ | discriminate ].
  destruct (Renderer.origin_label _ _) as [o | ]; [ | discriminate ].
  destruct (Renderer.axis_arrows _ _) as [a | ]; [ | discriminate ].
  unfold Renderer.result_marker, JS.bind, JS.ret. cbn [App.clickPos App.success].
  destruct (Canvas.toPixel (App.config s) dimensions
              (if hit then App.target s else clickPos)) as [q | ] eqn:Eq;
    [ | discriminate ].
  intros E. exists hit, q.
  exists (Renderer.prepare dimensions devicePixelRatio ++ vs ++ hs ++ o ++ a).
  split; [ reflexivity | ]. split; [ exact Eq | ].
  destruct hit; injection E as <-; now rewrite <- !List.app_assoc.
Qed.

(** A hit on the first target (3, 5) of the introductory tier. *)
Lemma marker_follows_click_witness :
  let s := App.initial App.zero_progress in
  exists cmds q before,
    Renderer.draw Renderer.Context2D (GAME_MODES Intro) intro_600 None
      (App.lastResult (App.handleCanvasClick {| x := 3; y := 5 |} 0 s))
      = Some cmds /\
    Canvas.toPixel (GAME_MODES Intro) intro_600 {| x := 3; y := 5 |}
      = Some q /\
    cmds = before ++ [Renderer.font "40px serif";
                      Renderer.fillText [App.Lit "⭐"] (x q) (y q)].
Proof.
  cbv zeta.
  assert (H : exists cmds,
            Renderer.draw Renderer.Context2D
              (App.config
                 (App.handleCanvasClick {| x := 3; y := 5 |} 0
                    (App.initial App.zero_progress)))
              intro_600 None
              (App.lastResult
                 (App.handleCanvasClick {| x := 3; y := 5 |} 0
                    (App.initial App.zero_progress))) = Some cmds)
    by (eexists; vm_compute; reflexivity).
  destruct H as [cmds H].
  destruct (marker_follows_click _ _ _ _ _ _ H)
    as (hit & q & before & Hh & Hq & Hc).
  assert (hit = true) by (cbn in Hh; congruence). subst hit.
  exists cmds, q, before. split; [ exact H | ]. split; [ exact Hq | exact Hc ].
Defined.

(** X20.  Each tier shows both axes, once each, whatever the size of the
    canvas: among the vertical lines exactly one has the axis width, and so
    among the horizontal lines; and every round of the two loops strokes a
    line (the range test in the loop body never skips one). *)
Theorem each_tier_draws_both_axes (m : DifficultyLevel)
    (dimensions : Canvas.Dimensions) :
  let c := GAME_MODES m in
  option_map Renderer.axis_lines (Renderer.vertical_lines c dimensions)
    = Some 1%nat /\
  option_map Renderer.axis_lines (Renderer.horizontal_lines c dimensions)
    = Some 1%nat /\
  option_map Renderer.strokes (Renderer.vertical_lines c dimensions)
    = Some (Renderer.rounds (fst (xRange c)) (snd (xRange c)) (gridStep c)) /\
  option_map Renderer.strokes (Renderer.horizontal_lines c dimensions)
    = Some (Renderer.rounds (fst (yRange c)) (snd (yRange c)) (gridStep c)).
Proof.
  destruct m; cbv zeta; repeat split; lazy; reflexivity.
Qed.

(* ================================================================== *)
(** * Further invariants of the controller *)

(** X21.  Counts stay counts: if every count is a non-negative integer when
    the app starts, every count is a non-negative integer in every state
    reached. *)
Theorem counts_stay_counts (p : App.Progress) (es : list App.Event)
    (s : App.State) :
  (forall m, exists n : Z, (0 <= n)%Z /\ p m == inject_Z n) ->
  App.run (App.initial p) es = Some s ->
  forall m, exists n : Z, (0 <= n)%Z /\ App.progress s m == inject_Z n.
Proof.
  intros Hp.
  apply (Invariants.run_invariant
           (fun s => forall m, exists n : Z,
                       (0 <= n)%Z /\ App.progress s m == inject_Z n));
    [ | exact Hp ].
  clear. intros s e s' Hs E m.
  destruct (Invariants.step_progress_cases s s' e E) as [-> | ->];
    [ apply Hs | ].
  unfold App.spread_set. destruct (level_eqb m (App.mode s)); [ | apply Hs ].
  destruct (Hs (App.mode s)) as (n & Hn & En).
  exists (n + 1)%Z. split; [ lia | ].
  rewrite JSFacts.or_else_zero, En, inject_Z_plus. reflexivity.
Qed.

Lemma counts_stay_counts_witness :
  exists s n,
    App.run (App.initial App.zero_progress)
      [App.Mount 0 0; App.CanvasClick {| x := 0; y := 0 |} 0] = Some s /\
    (0 <= n)%Z /\ App.progress s Intro == inject_Z n.
Proof.
  assert (H : exists s,
            App.run (App.initial App.zero_progress)
              [App.Mount 0 0; App.CanvasClick {| x := 0; y := 0 |} 0]
            = Some s) by (eexists; vm_compute; reflexivity).
  destruct H as [s H].
  assert (H0 : forall m, exists n : Z,
                 (0 <= n)%Z /\ App.zero_progress m == inject_Z n)
    by (intros m; exists 0%Z; split; [ lia | reflexivity ]).
  destruct (counts_stay_counts App.zero_progress
              [App.Mount 0 0; App.CanvasClick {| x := 0; y := 0 |} 0]
              s H0 H Intro) as (n & Hn & En).
  exists s, n. repeat split; assumption.
Defined.

(** X22.  The pending callbacks run off: as many timeouts as there are
    pending callbacks empty the queue, and once they have run the result
    marker is cleared; the tier, the score and the progress are as
    before. *)
Theorem pending_callbacks_run_off (draws : list (Q * Q)) (s : App.State) :
  App.timers_wf s ->
  List.length draws = List.length (App.timers s) ->
  exists s',
    App.run s (map (fun d => App.Timeout (fst d) (snd d)) draws) = Some s' /\
    App.timers s' = [] /\
    (App.timers s <> [] -> App.lastResult s' = None) /\
    App.progress s' = App.progress s /\
    App.score s' = App.score s /\
    App.mode s' = App.mode s.
Proof.
  revert s. induction draws as [ | [rx ry] draws IH ]; intros s Hwf Hlen.
  - exists s. destruct (App.timers s); [ | cbn in Hlen; discriminate Hlen ].
    repeat split; congruence.
  - destruct (AppFacts.fireTimeout_wf rx ry s Hwf) as (s1 & E1 & Hwf1).
    destruct (Invariants.fireTimeout_frame rx ry s s1 E1)
      as (Ht & Hr & _ & Hp & Hsc & Hm).
    destruct (App.timers s) as [ | t ts ] eqn:Ets;
      [ cbn in Hlen; discriminate Hlen | ].
    cbn [tl] in Ht.
    destruct (IH s1 Hwf1) as (s' & E' & Hnil & Hr' & Hp' & Hsc' & Hm').
    { rewrite Ht. cbn in Hlen. lia. }
    exists s'. cbn [map App.run App.step fst snd]. unfold JS.bind.
    rewrite E1. split; [ exact E' | ]. split; [ exact Hnil | ].
    split; [ | repeat split; congruence ].
    intros _. destruct (App.timers s1) as [ | t1 ts1 ] eqn:E1s.
    + destruct draws as [ | d draws ];
        [ | exfalso; rewrite <- Ht in Hlen; cbn in Hlen; discriminate Hlen ].
      cbn in E'. injection E' as <-. apply Hr. discriminate.
    + apply Hr'. discriminate.
Qed.

(** Two hits in a row, then two timeouts. *)
Lemma pending_callbacks_run_off_witness :
  exists s s',
    App.run (App.initial App.zero_progress)
      [App.Mount 0 0; App.CanvasClick {| x := 0; y := 0 |} 0;
       App.CanvasClick {| x := 0; y := 0 |} 1] = Some s /\
    List.length (App.timers s) = 2%nat /\
    App.run s [App.Timeout 0 0; App.Timeout (1 # 2) (1 # 2)] = Some s' /\
    App.timers s' = [] /\
    App.lastResult s' = None.
Proof.
  destruct (AppFacts.run_defined
              [App.Mount 0 0; App.CanvasClick {| x := 0; y := 0 |} 0;
               App.CanvasClick {| x := 0; y := 0 |} 1]
              (App.initial App.zero_progress)
              (AppFacts.initial_wf App.zero_progress)) as (s & Hs & Hwf).
  assert (Hlen : List.length (App.timers s) = 2%nat)
    by (vm_compute in Hs; injection Hs as <-; reflexivity).
  destruct (pending_callbacks_run_off [(0, 0); (1 # 2, 1 # 2)] s Hwf)
    as (s' & E & Hnil & Hr & _); [ now rewrite Hlen | ].
  exists s, s'. split; [ exact Hs | ]. split; [ exact Hlen | ].
  split; [ exact E | ]. split; [ exact Hnil | ].
  apply Hr. intros C. rewrite C in Hlen. discriminate.
Defined.
